(** * Certificate authority trust store (lib/services/local/trust.go)

    A shallow embedding of the local [CA] service: the key scheme, the
    conditional-action protocol it speaks to the backend, and the
    create / upsert / update / compare-and-swap / rotate / read paths,
    followed by the properties proved about them. *)

From Stdlib Require Import ZArith NArith Ascii String List.
From stdpp Require Import base option list gmap strings fin_maps sorting.

Local Open Scope string_scope.

(** ** Errors

    The [trace] package tags errors with a kind; [trace.Errorf] builds an
    error that carries a message and no kind, and [trace.Wrap] keeps the
    kind of what it wraps. *)

Inductive error : Type :=
  | NotFound (msg : string)
  | AlreadyExists (msg : string)
  | CompareFailed (msg : string)
  | BadParameter (msg : string)
  | ErrConditionFailed
  | Errorf (msg : string)
  | OtherError (msg : string).

Definition IsNotFound (e : error) : bool :=
  match e with NotFound _ => true | _ => false end.

Definition IsCompareFailed (e : error) : bool :=
  match e with CompareFailed _ => true | _ => false end.

Definition IsAlreadyExists (e : error) : bool :=
  match e with AlreadyExists _ => true | _ => false end.

(** [errors.Is(err, backend.ErrConditionFailed)]: identity with the sentinel. *)
Definition IsErrConditionFailed (e : error) : bool :=
  match e with ErrConditionFailed => true | _ => false end.

Definition Wrap (e : error) : error := e.

(** [%q] of a Go string whose characters need no escaping. *)
Definition dquote : string := String (ascii_of_nat 34) "".
Definition quote (s : string) : string := dquote +:+ s +:+ dquote.

(** ** Backend keys *)

Module backend.

Definition Separator : ascii := "/"%char.

(** Modelled from the spec: [backend.Key] is not part of the shown sources;
    keys embed their parts in order under a leading separator. *)
Definition Key (parts : list string) : string :=
  String.concat (String Separator "") ("" :: parts).

(** Modelled from the spec: [backend.ExactKey], the exact-prefix helper; the
    key of the parts closed by a separator, so that only keys nested under
    exactly these parts extend it. *)
Definition ExactKey (parts : list string) : string :=
  Key parts +:+ String Separator "".

Definition noEnd : string := String zero "".

(** The last byte below 0xff is incremented and everything after it dropped;
    the argument is the key reversed. *)
Fixpoint nextKey_rev (r : list ascii) : option (list ascii) :=
  match r with
  | [] => None
  | c :: r' =>
      if (N_of_ascii c <? 255)%N
      then Some (ascii_of_N (N_of_ascii c + 1) :: r')
      else nextKey_rev r'
  end.

(** Modelled from the spec: [backend.RangeEnd], the upper bound of the
    half-open range [[prefix, prefix_upper_bound)] of a prefix scan. *)
Definition RangeEnd (key : string) : string :=
  match nextKey_rev (rev (list_ascii_of_string key)) with
  | Some r => string_of_list_ascii (rev r)
  | None => noEnd
  end.

(** Keys are lexicographically ordered bytes. *)
Definition key_leb (a b : string) : bool := String.leb a b.
Definition key_ltb (a b : string) : bool := String.ltb a b.

Definition in_range (startKey endKey k : string) : bool :=
  key_leb startKey k && key_ltb k endKey.

Fixpoint isPrefix (p k : string) : bool :=
  match p, k with
  | "", _ => true
  | String _ _, "" => false
  | String a p', String b k' => Ascii.eqb a b && isPrefix p' k'
  end.

Fixpoint hasSeparator (s : string) : bool :=
  match s with
  | "" => false
  | String c s' => Ascii.eqb c Separator || hasSeparator s'
  end.

(** *** Items, conditions and actions *)

Definition Time := option Z.

Record Item := mkItem {
  item_Key : string;
  item_Value : string;
  item_Expires : Time;
  item_ID : Z;
  item_Revision : N;
}.

Record Lease := mkLease {
  lease_Key : string;
  lease_ID : Z;
  lease_Revision : N;
}.

Inductive Condition : Type :=
  | KindWhatever
  | KindExists
  | KindNotExists
  | KindRevision (r : N).

Inductive Action : Type :=
  | KindNop
  | KindPut (item : Item)
  | KindDelete.

Record ConditionalAction := mkCondAct {
  ca_Key : string;
  ca_Condition : Condition;
  ca_Action : Action;
}.

Definition Whatever : Condition := KindWhatever.
Definition NotExists : Condition := KindNotExists.
Definition Exists_ : Condition := KindExists.
Definition Revision (r : N) : Condition := KindRevision r.
Definition Put (item : Item) : Action := KindPut item.
Definition Delete : Action := KindDelete.

Definition NoLimit : nat := 0.

(** *** The store

    The backend engine is an external collaborator of which only the
    contract is given: revisioned items under lexicographically ordered
    keys, with single-key compare-and-swap, revision-conditioned update,
    range scan and delete, and an atomic batch. *)

(** Modelled from the spec: the persisted part of a [BackendItem]; what is
    kept under a key is the item without its key. *)
Record Stored := mkStored {
  st_Value : string;
  st_Expires : Time;
  st_ID : Z;
  st_Revision : N;
}.

(** Modelled from the spec: the state of the backend, the revisioned items
    by key and the counter from which revisions are assigned. *)
Record Store := mkStore {
  items : gmap string Stored;
  clock : N;
}.

Definition empty_store : Store := mkStore ∅ 0.

Definition to_item (k : string) (v : Stored) : Item :=
  mkItem k (st_Value v) (st_Expires v) (st_ID v) (st_Revision v).

(** What a write of [it] persists at revision [r]. *)
Definition stamp (r : N) (it : Item) : Stored :=
  mkStored (item_Value it) (item_Expires it) (Z.of_N r) r.

Definition lookup_item (s : Store) (k : string) : option Item :=
  to_item k <$> items s !! k.

(** Modelled from the spec: [Get(key) -> Item | NotFound]. *)
Definition Get (s : Store) (k : string) : error + Item :=
  match lookup_item s k with
  | Some it => inr it
  | None => inl (NotFound ("key " +:+ quote k +:+ " is not found"))
  end.

(** Modelled from the spec: [Put(Item) -> Item], the unconditional write of
    the backend; the revision and id of the stored item are assigned by the
    backend. *)
Definition PutItem (s : Store) (it : Item) : (error + Lease) * Store :=
  let r := (clock s + 1)%N in
  (inr (mkLease (item_Key it) (Z.of_N r) r),
   mkStore (<[item_Key it := stamp r it]> (items s)) r).

(** Modelled from the spec: the Conflict error of a revision mismatch. *)
Definition ErrIncorrectRevision : error :=
  CompareFailed "resource revision does not match".

(** Modelled from the spec: [ConditionalUpdate(Item) -> Item |
    ConditionFailed]; the stored revision is compared to the supplied one as
    part of the write. *)
Definition ConditionalUpdate (s : Store) (it : Item) : (error + Lease) * Store :=
  match items s !! item_Key it with
  | Some cur =>
      if decide (st_Revision cur = item_Revision it)
      then PutItem s it
      else (inl ErrIncorrectRevision, s)
  | None => (inl ErrIncorrectRevision, s)
  end.

(** Modelled from the spec: [CompareAndSwap(old Item, new Item) -> Item |
    ConditionFailed], the single-key swap against the bytes of [old]. *)
Definition CompareAndSwap (s : Store) (expected replaceWith : Item)
  : (error + Lease) * Store :=
  if negb (String.eqb (item_Key expected) (item_Key replaceWith))
  then (inl (BadParameter "expected and replaceWith keys should match"), s)
  else
    match items s !! item_Key expected with
    | Some cur =>
        if String.eqb (st_Value cur) (item_Value expected)
        then PutItem s replaceWith
        else (inl (CompareFailed "current value does not match expected"), s)
    | None => (inl (CompareFailed "key is not found"), s)
    end.

Fixpoint insert_sorted (p : string * Stored) (l : list (string * Stored))
  : list (string * Stored) :=
  match l with
  | [] => [p]
  | q :: l' => if key_leb p.1 q.1 then p :: l else q :: insert_sorted p l'
  end.

Definition sort_by_key (l : list (string * Stored)) : list (string * Stored) :=
  foldr insert_sorted [] l.

Definition range_map (s : Store) (startKey endKey : string) : gmap string Stored :=
  filter (fun p => in_range startKey endKey p.1 = true) (items s).

(** Modelled from the spec: [GetRange(start, end, limit) -> []Item] over
    the half-open range, in key order. *)
Definition GetRange (s : Store) (startKey endKey : string) (limit : nat)
  : list Item :=
  let all := (fun p => to_item p.1 p.2) <$>
               sort_by_key (map_to_list (range_map s startKey endKey)) in
  if decide (limit = NoLimit) then all else take limit all.

(** Modelled from the spec: the range delete over the same half-open
    range. *)
Definition DeleteRange (s : Store) (startKey endKey : string) : option error * Store :=
  (None,
   mkStore (filter (fun p => in_range startKey endKey p.1 = false) (items s))
           (clock s)).

(** Modelled from the spec: the precondition of one action, checked on the
    store the batch is submitted to. *)
Definition holds (s : Store) (c : ConditionalAction) : bool :=
  match ca_Condition c, items s !! ca_Key c with
  | KindWhatever, _ => true
  | KindExists, Some _ => true
  | KindExists, None => false
  | KindNotExists, Some _ => false
  | KindNotExists, None => true
  | KindRevision r, Some cur => bool_decide (st_Revision cur = r)
  | KindRevision _, None => false
  end.

(** Modelled from the spec: the effect of one action; a put writes at the
    key of the action. *)
Definition apply_action (r : N) (m : gmap string Stored) (c : ConditionalAction)
  : gmap string Stored :=
  match ca_Action c with
  | KindNop => m
  | KindPut it => <[ca_Key c := stamp r it]> m
  | KindDelete => delete (ca_Key c) m
  end.

(** Modelled from the spec: [AtomicWrite([]ConditionalAction) -> error];
    every precondition is checked and every effect applied as one
    indivisible unit, or nothing is. *)
Definition AtomicWrite (s : Store) (condacts : list ConditionalAction)
  : (error + N) * Store :=
  if forallb (holds s) condacts
  then
    let r := (clock s + 1)%N in
    (inr r, mkStore (foldl (apply_action r) (items s) condacts) r)
  else (inl ErrConditionFailed, s).

End backend.

(** ** Certificate authorities (api/types) *)

Module types.

Definition CertAuthType := string.

Record CertAuthID := mkCertAuthID {
  Type_ : CertAuthType;
  DomainName : string;
}.

(** A key pair of a CA key set; [PrivateKey] is the secret signing material,
    empty when it is not held. *)
Record KeyPair := mkKeyPair {
  PublicKey : string;
  PrivateKey : string;
}.

Definition RoleMap := list (string * list string).

(** Modelled from the spec: the attributes of a [CertAuthority]; the
    declaration is not part of the shown sources. *)
Record CertAuthority := mkCertAuthority {
  Name : string;
  SubKind : CertAuthType;
  ClusterName : string;
  ActiveKeys : list KeyPair;
  AdditionalTrustedKeys : list KeyPair;
  Roles : RoleMap;
  Revision : N;
  ResourceID : Z;
  Expires : backend.Time;
}.

Definition GetName (ca : CertAuthority) : string := Name ca.
Definition GetType (ca : CertAuthority) : CertAuthType := SubKind ca.
Definition GetID (ca : CertAuthority) : CertAuthID :=
  mkCertAuthID (SubKind ca) (ClusterName ca).
Definition GetRevision (ca : CertAuthority) : N := Revision ca.
Definition GetResourceID (ca : CertAuthority) : Z := ResourceID ca.
Definition Expiry (ca : CertAuthority) : backend.Time := Expires ca.

Definition SetRevision (ca : CertAuthority) (r : N) : CertAuthority :=
  mkCertAuthority (Name ca) (SubKind ca) (ClusterName ca) (ActiveKeys ca)
    (AdditionalTrustedKeys ca) (Roles ca) r (ResourceID ca) (Expires ca).

Definition SetResourceID (ca : CertAuthority) (id : Z) : CertAuthority :=
  mkCertAuthority (Name ca) (SubKind ca) (ClusterName ca) (ActiveKeys ca)
    (AdditionalTrustedKeys ca) (Roles ca) (Revision ca) id (Expires ca).

Definition SetExpiry (ca : CertAuthority) (t : backend.Time) : CertAuthority :=
  mkCertAuthority (Name ca) (SubKind ca) (ClusterName ca) (ActiveKeys ca)
    (AdditionalTrustedKeys ca) (Roles ca) (Revision ca) (ResourceID ca) t.

Definition SetRoleMap (ca : CertAuthority) (m : RoleMap) : CertAuthority :=
  mkCertAuthority (Name ca) (SubKind ca) (ClusterName ca) (ActiveKeys ca)
    (AdditionalTrustedKeys ca) m (Revision ca) (ResourceID ca) (Expires ca).

Definition UserCA : CertAuthType := "user".

Definition WithoutSecrets (ks : list KeyPair) : list KeyPair :=
  (fun k => mkKeyPair (PublicKey k) "") <$> ks.

(** Modelled from the spec: [types.RemoveCASecrets] is not part of the shown
    sources; it strips the secret key material of a CA and nothing else. *)
Definition RemoveCASecrets (ca : CertAuthority) : CertAuthority :=
  mkCertAuthority (Name ca) (SubKind ca) (ClusterName ca)
    (WithoutSecrets (ActiveKeys ca)) (WithoutSecrets (AdditionalTrustedKeys ca))
    (Roles ca) (Revision ca) (ResourceID ca) (Expires ca).

Definition secrets (ca : CertAuthority) : list string :=
  filter (fun k => k ≠ "") (PrivateKey <$> (ActiveKeys ca ++ AdditionalTrustedKeys ca)%list).

End types.

(** ** The services package: serializer and validator

    Both are external collaborators of the store; the store is written
    against their signatures only. *)

Module services.

Inductive MarshalOption : Type :=
  | WithResourceID (id : Z)
  | WithExpires (t : backend.Time)
  | WithRevision (r : N).

Class Services := {
  ValidateCertAuthority : types.CertAuthority -> option error;
  MarshalCertAuthority : types.CertAuthority -> error + string;
  UnmarshalCertAuthority : string -> list MarshalOption -> error + types.CertAuthority;
  CertAuthoritiesEquivalent : types.CertAuthority -> types.CertAuthority -> bool;
  CertAuthID_Check : types.CertAuthID -> option error;
  CertAuthType_Check : types.CertAuthType -> option error;
}.

End services.

(** ** The local CA service (lib/services/local/trust.go) *)

Module local.

Import types services.

Definition authoritiesPrefix : string := "authorities".
Definition deactivatedPrefix : string := "deactivated".

(** activeKey builds the active key variant for the supplied ca id. *)
Definition activeKey (id : CertAuthID) : string :=
  backend.Key [authoritiesPrefix; Type_ id; DomainName id].

(** inactiveKey builds the inactive key variant for the supplied ca id. *)
Definition inactiveKey (id : CertAuthID) : string :=
  backend.Key [authoritiesPrefix; deactivatedPrefix; Type_ id; DomainName id].


(** [slices.Contains] on strings. *)
Definition slices_Contains (l : list string) (x : string) : bool :=
  existsb (String.eqb x) l.

(** [strings.Join]. *)
Definition strings_Join (l : list string) (sep : string) : string :=
  String.concat sep l.

(** A CA object lives on the heap behind the [types.CertAuthority]
    interface; [Clone] allocates a fresh object, setters write in place. *)
Definition loc := positive.
Definition heap := gmap loc CertAuthority.

Definition Clone (h : heap) (l : loc) : option (loc * heap) :=
  match h !! l with
  | Some ca => let l' := fresh (dom h) in Some (l', <[l' := ca]> h)
  | None => None
  end.

(** A setter called through the reference [l]. *)
Definition call (f : CertAuthority -> CertAuthority) (l : loc) (h : heap)
  : option heap :=
  match h !! l with
  | Some ca => Some (<[l := f ca]> h)
  | None => None
  end.

Section CA.

Context `{Services}.

Definition setSigningKeys (ca : CertAuthority) (loadSigningKeys : bool)
  : CertAuthority :=
  if loadSigningKeys then ca else RemoveCASecrets ca.

(** *** DeleteAllCertAuthorities *)

Definition DeleteAllCertAuthorities (caType : CertAuthType) (s : backend.Store)
  : option error * backend.Store :=
  let startKey := backend.ExactKey [authoritiesPrefix; caType] in
  backend.DeleteRange s startKey (backend.RangeEnd startKey).

(** *** CreateCertAuthorities *)

Definition createActions (ca : CertAuthority) (value : string)
  : list backend.ConditionalAction :=
  [ backend.mkCondAct (activeKey (GetID ca)) backend.NotExists
      (backend.Put (backend.mkItem "" value (Expiry ca) 0 0));
    backend.mkCondAct (inactiveKey (GetID ca)) backend.Whatever backend.Delete ].

(** The loop over the batch: it stops at the first member that fails
    validation or serialization, before anything is submitted. *)
Fixpoint createLoop (cas : list CertAuthority)
    (condacts : list backend.ConditionalAction) (clusterNames : list string)
  : error + (list backend.ConditionalAction * list string) :=
  match cas with
  | [] => inr (condacts, clusterNames)
  | ca :: rest =>
      let clusterNames :=
        if slices_Contains clusterNames (GetName ca) then clusterNames
        else (clusterNames ++ [GetName ca])%list in
      match ValidateCertAuthority ca with
      | Some err => inl (Wrap err)
      | None =>
          match MarshalCertAuthority ca with
          | inl err => inl (Wrap err)
          | inr value =>
              createLoop rest (condacts ++ createActions ca value)%list clusterNames
          end
      end
  end.

Definition alreadyExistMsg (clusterNames : list string) : string :=
  "one or more CAs from cluster(s) " +:+ quote (strings_Join clusterNames ",")
  +:+ " already exist".

Definition CreateCertAuthorities (cas : list CertAuthority) (s : backend.Store)
  : option error * backend.Store :=
  match createLoop cas [] [] with
  | inl err => (Some err, s)
  | inr (condacts, clusterNames) =>
      match backend.AtomicWrite s condacts with
      | (inl err, s') =>
          if IsErrConditionFailed err
          then (Some (AlreadyExists (alreadyExistMsg clusterNames)), s')
          else (Some (Wrap err), s')
      | (inr _, s') => (None, s')
      end
  end.

Definition CreateCertAuthority (ca : CertAuthority) (s : backend.Store)
  : option error * backend.Store :=
  CreateCertAuthorities [ca] s.

(** The bytes a member of a batch is stored as, the actions of a whole
    batch and the cluster names it collects. *)
Definition marshalled (ca : CertAuthority) : string :=
  match MarshalCertAuthority ca with
  | inr value => value
  | inl _ => ""
  end.

Definition batchActions (cas : list CertAuthority) : list backend.ConditionalAction :=
  flat_map (fun ca => createActions ca (marshalled ca)) cas.

Definition addName (clusterNames : list string) (ca : CertAuthority) : list string :=
  if slices_Contains clusterNames (GetName ca) then clusterNames
  else (clusterNames ++ [GetName ca])%list.


Definition acceptable (ca : CertAuthority) : Prop :=
  ValidateCertAuthority ca = None
  /\ exists value, MarshalCertAuthority ca = inr value.

(** *** GetCertAuthority *)

Definition itemOptions (item : backend.Item) : list MarshalOption :=
  [ WithResourceID (backend.item_ID item);
    WithExpires (backend.item_Expires item);
    WithRevision (backend.item_Revision item) ].

Definition GetCertAuthority (id : CertAuthID) (loadSigningKeys : bool)
    (s : backend.Store) : (error + CertAuthority) * backend.Store :=
  match CertAuthID_Check id with
  | Some err => (inl (Wrap err), s)
  | None =>
      match backend.Get s (activeKey id) with
      | inl err => (inl (Wrap err), s)
      | inr item =>
          match UnmarshalCertAuthority (backend.item_Value item) (itemOptions item) with
          | inl err => (inl (Wrap err), s)
          | inr ca =>
              match ValidateCertAuthority ca with
              | Some err => (inl (Wrap err), s)
              | None => (inr (setSigningKeys ca loadSigningKeys), s)
              end
          end
      end
  end.

(** *** UpsertCertAuthority *)

Definition UpsertCertAuthority (ca : CertAuthority) (s : backend.Store)
  : option error * backend.Store :=
  match ValidateCertAuthority ca with
  | Some err => (Some (Wrap err), s)
  | None =>
      let skip :=
        match GetCertAuthority (GetID ca) true s with
        | (inr existing, _) => CertAuthoritiesEquivalent existing ca
        | (inl _, _) => false
        end in
      if skip then (None, s)
      else
        let rev := GetRevision ca in
        match MarshalCertAuthority ca with
        | inl err => (Some (Wrap err), s)
        | inr value =>
            let item := backend.mkItem (activeKey (GetID ca)) value (Expiry ca)
                          (GetResourceID ca) rev in
            match backend.PutItem s item with
            | (inl err, s') => (Some (Wrap err), s')
            | (inr _, s') => (None, s')
            end
        end
  end.

(** *** UpdateCertAuthority

    The argument is a reference to the caller's object; the result is a
    reference to the clone that carries the new revision. *)

Definition UpdateCertAuthority (l : loc) (h : heap) (s : backend.Store)
  : option ((error + loc) * heap * backend.Store) :=
  ca ← h !! l;
  match ValidateCertAuthority ca with
  | Some err => Some (inl (Wrap err), h, s)
  | None =>
      match MarshalCertAuthority ca with
      | inl err => Some (inl (Wrap err), h, s)
      | inr value =>
          let item := backend.mkItem (activeKey (GetID ca)) value (Expiry ca)
                        (GetResourceID ca) (GetRevision ca) in
          match backend.ConditionalUpdate s item with
          | (inl err, s') => Some (inl (Wrap err), h, s')
          | (inr lease, s') =>
              '(l', h1) ← Clone h l;
              h2 ← call (fun c => SetRevision c (backend.lease_Revision lease)) l' h1;
              h3 ← call (fun c => SetResourceID c (backend.lease_ID lease)) l' h2;
              Some (inr l', h3, s')
          end
      end
  end.

(** *** CompareAndSwapCertAuthority *)

Definition updatedMsg (name : string) : string :=
  "cluster " +:+ name +:+ " settings have been updated, try again".

Definition casKey (new : CertAuthority) : string :=
  backend.Key [authoritiesPrefix; GetType new; GetName new].

(** The swap proper, issued against the store as it is when the call
    reaches the backend, with the item read earlier as its base. *)
Definition casCommit (new : CertAuthority) (actualItem : backend.Item)
    (s : backend.Store) : option error * backend.Store :=
  let rev := GetRevision new in
  match MarshalCertAuthority new with
  | inl err => (Some (Wrap err), s)
  | inr newValue =>
      let newItem := backend.mkItem (casKey new) newValue (Expiry new) 0 rev in
      match backend.CompareAndSwap s actualItem newItem with
      | (inl err, s') =>
          if IsCompareFailed err
          then (Some (CompareFailed (updatedMsg (GetName new))), s')
          else (Some (Wrap err), s')
      | (inr _, s') => (None, s')
      end
  end.

(** The read and the equivalence pre-check; [inr] is the item to swap
    against. *)
Definition casRead (new expected : CertAuthority) (s : backend.Store)
  : error + backend.Item :=
  match ValidateCertAuthority new with
  | Some err => inl (Wrap err)
  | None =>
      match backend.Get s (casKey new) with
      | inl err => inl (Wrap err)
      | inr actualItem =>
          match UnmarshalCertAuthority (backend.item_Value actualItem) [] with
          | inl err => inl (Wrap err)
          | inr actual =>
              if negb (CertAuthoritiesEquivalent actual expected)
              then inl (CompareFailed (updatedMsg (GetName new)))
              else inr actualItem
          end
      end
  end.

Definition CompareAndSwapCertAuthority (new expected : CertAuthority)
    (s : backend.Store) : option error * backend.Store :=
  match casRead new expected s with
  | inl err => (Some err, s)
  | inr actualItem => casCommit new actualItem s
  end.

(** *** ActivateCertAuthority and DeactivateCertAuthority

    Each is a read of the source slot followed by one atomic write; the
    write is given apart so that it can be run against the store as it is
    when the batch reaches the backend. *)

Definition notInactiveMsg (id : CertAuthID) : string :=
  "can not activate cert authority " +:+ quote (DomainName id) +:+ " of type "
  +:+ quote (Type_ id) +:+ " (not a currently inactive ca)".

Definition activateConflictMsg (id : CertAuthID) : string :=
  "failed to activate cert authority " +:+ quote (DomainName id) +:+ " of type "
  +:+ quote (Type_ id) +:+ " due to concurrent modification".

Definition notActiveMsg (id : CertAuthID) : string :=
  "can not deactivate cert authority " +:+ quote (DomainName id) +:+ " of type "
  +:+ quote (Type_ id) +:+ " (not a currently active ca)".

Definition deactivateConflictMsg (id : CertAuthID) : string :=
  "failed to deactivate cert authority " +:+ quote (DomainName id) +:+ " of type "
  +:+ quote (Type_ id) +:+ " due to concurrent modification".

Definition activateActions (id : CertAuthID) (item : backend.Item)
  : list backend.ConditionalAction :=
  [ backend.mkCondAct (inactiveKey id)
      (backend.Revision (backend.item_Revision item)) backend.Delete;
    backend.mkCondAct (activeKey id) backend.Whatever (backend.Put item) ].

Definition deactivateActions (id : CertAuthID) (item : backend.Item)
  : list backend.ConditionalAction :=
  [ backend.mkCondAct (activeKey id)
      (backend.Revision (backend.item_Revision item)) backend.Delete;
    backend.mkCondAct (inactiveKey id) backend.Whatever (backend.Put item) ].

Definition activateRead (id : CertAuthID) (s : backend.Store)
  : error + backend.Item :=
  match CertAuthID_Check id with
  | Some err => inl (Wrap err)
  | None =>
      match backend.Get s (inactiveKey id) with
      | inl err =>
          if IsNotFound err then inl (Errorf (notInactiveMsg id))
          else inl (Wrap err)
      | inr item => inr item
      end
  end.

Definition activateCommit (id : CertAuthID) (item : backend.Item)
    (s : backend.Store) : option error * backend.Store :=
  match backend.AtomicWrite s (activateActions id item) with
  | (inl err, s') =>
      if IsErrConditionFailed err
      then (Some (Errorf (activateConflictMsg id)), s')
      else (Some (Wrap err), s')
  | (inr _, s') => (None, s')
  end.

Definition ActivateCertAuthority (id : CertAuthID) (s : backend.Store)
  : option error * backend.Store :=
  match activateRead id s with
  | inl err => (Some err, s)
  | inr item => activateCommit id item s
  end.

Definition deactivateRead (id : CertAuthID) (s : backend.Store)
  : error + backend.Item :=
  match CertAuthID_Check id with
  | Some err => inl (Wrap err)
  | None =>
      match backend.Get s (activeKey id) with
      | inl err =>
          if IsNotFound err then inl (Errorf (notActiveMsg id))
          else inl (Wrap err)
      | inr item => inr item
      end
  end.

Definition deactivateCommit (id : CertAuthID) (item : backend.Item)
    (s : backend.Store) : option error * backend.Store :=
  match backend.AtomicWrite s (deactivateActions id item) with
  | (inl err, s') =>
      if IsErrConditionFailed err
      then (Some (Errorf (deactivateConflictMsg id)), s')
      else (Some (Wrap err), s')
  | (inr _, s') => (None, s')
  end.

Definition DeactivateCertAuthority (id : CertAuthID) (s : backend.Store)
  : option error * backend.Store :=
  match deactivateRead id s with
  | inl err => (Some err, s)
  | inr item => deactivateCommit id item s
  end.

(** A call whose read sees the store [s] and whose batch reaches the
    backend when the store has become [s2]; the call alone on [s] is the
    case [s2 = s]. *)
Definition deactivateRun (id : CertAuthID) (s s2 : backend.Store)
  : option error * backend.Store :=
  match deactivateRead id s with
  | inl err => (Some err, s2)
  | inr item => deactivateCommit id item s2
  end.

Definition activateRun (id : CertAuthID) (s s2 : backend.Store)
  : option error * backend.Store :=
  match activateRead id s with
  | inl err => (Some err, s2)
  | inr item => activateCommit id item s2
  end.

Definition casRun (new expected : CertAuthority) (s s2 : backend.Store)
  : option error * backend.Store :=
  match casRead new expected s with
  | inl err => (Some err, s2)
  | inr actualItem => casCommit new actualItem s2
  end.

(** *** GetCertAuthorities

    The result slice is allocated at the length of the scan and written by
    index; [None] is the nil interface value an index keeps when nothing is
    assigned to it. *)

Definition decodeItem (item : backend.Item) (loadSigningKeys : bool)
  : option CertAuthority :=
  match UnmarshalCertAuthority (backend.item_Value item) (itemOptions item) with
  | inl _ => None
  | inr ca =>
      match ValidateCertAuthority ca with
      | Some _ => None
      | None => Some (setSigningKeys ca loadSigningKeys)
      end
  end.

Fixpoint listLoop (loadSigningKeys : bool) (i : nat) (result : list backend.Item)
    (cas : list (option CertAuthority)) : list (option CertAuthority) :=
  match result with
  | [] => cas
  | item :: rest =>
      match UnmarshalCertAuthority (backend.item_Value item) (itemOptions item) with
      | inl _ => listLoop loadSigningKeys (S i) rest cas
      | inr ca =>
          match ValidateCertAuthority ca with
          | Some _ => listLoop loadSigningKeys (S i) rest cas
          | None =>
              listLoop loadSigningKeys (S i) rest
                (<[i := Some (setSigningKeys ca loadSigningKeys)]> cas)
          end
      end
  end.

Definition scanType (caType : CertAuthType) (s : backend.Store) : list backend.Item :=
  let startKey := backend.ExactKey [authoritiesPrefix; caType] in
  backend.GetRange s startKey (backend.RangeEnd startKey) backend.NoLimit.

Definition GetCertAuthorities (caType : CertAuthType) (loadSigningKeys : bool)
    (s : backend.Store) : (error + list (option CertAuthority)) * backend.Store :=
  match CertAuthType_Check caType with
  | Some err => (inl (Wrap err), s)
  | None =>
      let result := scanType caType s in
      let cas := replicate (length result) None in
      (inr (listLoop loadSigningKeys 0 result cas), s)
  end.

(** *** DeleteCertAuthorities *)

Definition deleteActions (id : CertAuthID) : list backend.ConditionalAction :=
  (fun key => backend.mkCondAct key backend.Whatever backend.Delete)
    <$> [activeKey id; inactiveKey id].

Fixpoint deleteLoop (ids : list CertAuthID)
    (condacts : list backend.ConditionalAction)
  : error + list backend.ConditionalAction :=
  match ids with
  | [] => inr condacts
  | id :: rest =>
      match CertAuthID_Check id with
      | Some err => inl (Wrap err)
      | None => deleteLoop rest (condacts ++ deleteActions id)%list
      end
  end.

Definition DeleteCertAuthorities (ids : list CertAuthID) (s : backend.Store)
  : option error * backend.Store :=
  match deleteLoop ids [] with
  | inl err => (Some err, s)
  | inr condacts =>
      match backend.AtomicWrite s condacts with
      | (inl err, s') => (Some (Wrap err), s')
      | (inr _, s') => (None, s')
      end
  end.

Definition DeleteCertAuthority (id : CertAuthID) (s : backend.Store)
  : option error * backend.Store :=
  DeleteCertAuthorities [id] s.

(** *** UpdateUserCARoleMap *)

Definition roleMapKey (name : string) (activated : bool) : string :=
  let id := mkCertAuthID UserCA name in
  if negb activated then inactiveKey id else activeKey id.

Definition UpdateUserCARoleMap (name : string) (roleMap : RoleMap)
    (activated : bool) (s : backend.Store) : option error * backend.Store :=
  let key := roleMapKey name activated in
  match backend.Get s key with
  | inl err => (Some (Wrap err), s)
  | inr actualItem =>
      match UnmarshalCertAuthority (backend.item_Value actualItem) [] with
      | inl err => (Some (Wrap err), s)
      | inr actual =>
          let actual := SetRoleMap actual roleMap in
          let rev := GetRevision actual in
          match MarshalCertAuthority actual with
          | inl err => (Some (Wrap err), s)
          | inr newValue =>
              let newItem := backend.mkItem key newValue (Expiry actual) 0 rev in
              match backend.CompareAndSwap s actualItem newItem with
              | (inl err, s') =>
                  if IsCompareFailed err
                  then (Some (CompareFailed (updatedMsg name)), s')
                  else (Some (Wrap err), s')
              | (inr _, s') => (None, s')
              end
          end
      end
  end.

End CA.

(** The start of the range scanned for a type. *)
Definition typeStart (caType : CertAuthType) : string :=
  backend.ExactKey [authoritiesPrefix; caType].

(** A type name that can stand as one segment of a key: it holds no
    separator and is not the segment that nests the inactive keys. *)
Definition wfType (t : CertAuthType) : Prop :=
  backend.hasSeparator t = false /\ t <> deactivatedPrefix.

(** An action that deletes its key whatever the key holds. *)
Definition unconditionalDelete (c : backend.ConditionalAction) : Prop :=
  backend.ca_Condition c = backend.KindWhatever
  /\ backend.ca_Action c = backend.KindDelete.

(** *** Slots of an identity *)

Definition inActive (s : backend.Store) (id : CertAuthID) : Prop :=
  is_Some (backend.items s !! activeKey id).

Definition inInactive (s : backend.Store) (id : CertAuthID) : Prop :=
  is_Some (backend.items s !! inactiveKey id).

Definition atMostOneSlot (s : backend.Store) (id : CertAuthID) : Prop :=
  ~ (inActive s id /\ inInactive s id).

Definition present (s : backend.Store) (id : CertAuthID) : Prop :=
  inActive s id \/ inInactive s id.

(** The store after the move of [item] from the key [src] to the key [dst]. *)
Definition moved (src dst : string) (item : backend.Item) (s : backend.Store)
  : backend.Store :=
  backend.mkStore
    (<[dst := backend.stamp (backend.clock s + 1) item]>
       (delete src (backend.items s)))
    (backend.clock s + 1).

(** What a completed move looks like from the two slots of the identity and
    from every other key. *)
Definition movedFrom (src dst : string) (s s2 s' : backend.Store) : Prop :=
  exists v v2,
    backend.items s !! src = Some v
    /\ backend.items s2 !! src = Some v2
    /\ backend.st_Revision v2 = backend.st_Revision v
    /\ s' = moved src dst (backend.to_item src v) s2
    /\ backend.items s' !! src = None
    /\ (exists w, backend.items s' !! dst = Some w
                  /\ backend.st_Value w = backend.st_Value v
                  /\ backend.st_Expires w = backend.st_Expires v)
    /\ (forall k, k <> src -> k <> dst -> backend.items s' !! k = backend.items s2 !! k).

End local.

(** ** Rendering CRDs as Helm templates
    (build.assets/tooling/cmd/render-helm-crds/main.go) *)

Module helmcrds.

Definition nl : string := String (ascii_of_nat 10) "".

Definition helmCRDPrefix : string :=
  String.concat nl
    [ "{{/*";
      "  Deploy the CRD if 'installCRDs' is set to " +:+ quote "always"
        +:+ ", or if 'installCRD' is set";
      "  to " +:+ quote "dynamic"
        +:+ " and either 'enabled' is true or the CRD is already present.";
      "*/}}";
      "{{- if or";
      "  (eq .Values.installCRDs " +:+ quote "always" +:+ ")";
      "  (and";
      "    (eq .Values.installCRDs " +:+ quote "dynamic" +:+ ")";
      "    (or";
      "      .Values.enabled";
      "      (lookup " +:+ quote "apiextensions.k8s.io/v1" +:+ " "
        +:+ quote "CustomResourceDefinition" +:+ " " +:+ quote "" +:+ " "
        +:+ quote "teleportgithubconnectors.resources.teleport.dev" +:+ ")";
      "    )";
      "  )";
      "}}";
      "" ].

Definition helmCRDSuffix : string := "{{- end }}" +:+ nl.

(** [strings.ReplaceAll] on byte strings: the occurrences of [old] are
    replaced from the left and do not overlap.  [skip] counts the bytes of a
    replaced occurrence still to pass over.  An empty [old] matches before
    every byte and at the end. *)
Fixpoint replaceFrom (old new : string) (skip : nat) (s : string) : string :=
  match s with
  | "" => ""
  | String c s' =>
      match skip with
      | S k => replaceFrom old new k s'
      | O =>
          if backend.isPrefix old s
          then new +:+ replaceFrom old new (String.length old - 1) s'
          else String c (replaceFrom old new 0 s')
      end
  end.

Fixpoint insertBetween (new : string) (s : string) : string :=
  match s with
  | "" => new
  | String c s' => new +:+ String c (insertBetween new s')
  end.

Definition ReplaceAll (s old new : string) : string :=
  match old with
  | "" => insertBetween new s
  | _ => replaceFrom old new 0 s
  end.

Definition escapeCRD (originalCRD : string) : string :=
  let escapedCRD := ReplaceAll originalCRD "`{{" "{{ `{{" in
  ReplaceAll escapedCRD "}}`" "}}` }}".

(** [strings.Builder.WriteString] always returns a nil error, so the error
    branches are never taken. *)
Definition craftHelmCRD (originalCRD : string) : error + string :=
  inr (helmCRDPrefix +:+ escapeCRD originalCRD +:+ helmCRDSuffix).

Fixpoint hasByte (c : ascii) (s : string) : bool :=
  match s with
  | "" => false
  | String x s' => Ascii.eqb x c || hasByte c s'
  end.

End helmcrds.

(** ** Trait expressions (lib/expression) *)

Module expression.

Section Choose.

Variable any : Type.

Record option_ := mkOption {
  condition : bool;
  value : any;
}.

Definition noOptionMsg : string :=
  "evaluating choose expression: no option could be selected, consider adding a default option by hardcoding the condition to "
  +:+ quote "true".

Fixpoint choose (options : list option_) : error + any :=
  match options with
  | [] => inl (BadParameter noOptionMsg)
  | opt :: rest => if condition opt then inr (value opt) else choose rest
  end.

End Choose.

Arguments mkOption {any}.
Arguments condition {any}.
Arguments value {any}.
Arguments choose {any}.

(** The set type of the package is declared outside the shown sources; the
    conversions below use its constructor and its [items] only. *)
Class SetOps (Set_ : Type) := {
  NewSet : list string -> Set_;
  items : Set_ -> list string;
}.

Section Dicts.

Context {Set_ : Type} `{SetOps Set_}.

(** StringSliceMapFromDict returns string slice map from a Dict. *)
Definition StringSliceMapFromDict (d : gmap string Set_) : gmap string (list string) :=
  items <$> d.

(** DictFromStringSliceMap returns Dict from a string slices map type. *)
Definition DictFromStringSliceMap (m : gmap string (list string)) : gmap string Set_ :=
  NewSet <$> m.

End Dicts.

End expression.

(** ** A sample serializer and validator

    One concrete choice of the external collaborators, on which the
    statements below are exercised: records are written as fields separated
    by a bar, key pairs as [public,private] separated by semicolons. *)

Module sample.

Import types services.

Fixpoint splitOn (c : ascii) (s : string) : list string :=
  match s with
  | "" => [""]
  | String x s' =>
      if Ascii.eqb x c then "" :: splitOn c s'
      else match splitOn c s' with
           | [] => [String x ""]
           | w :: ws => String x w :: ws
           end
  end.

Definition encodeKeys (ks : list KeyPair) : string :=
  String.concat ";" ((fun k => PublicKey k +:+ "," +:+ PrivateKey k) <$> ks).

Definition decodeKeys (s : string) : list KeyPair :=
  if String.eqb s "" then []
  else (fun w => match splitOn "," w with
                 | [p; q] => mkKeyPair p q
                 | _ => mkKeyPair w ""
                 end) <$> splitOn ";" s.

Definition encode (ca : CertAuthority) : string :=
  String.concat "|" [SubKind ca; Name ca; ClusterName ca;
                     encodeKeys (ActiveKeys ca);
                     encodeKeys (AdditionalTrustedKeys ca)].

Definition applyOption (ca : CertAuthority) (o : MarshalOption) : CertAuthority :=
  match o with
  | WithResourceID id => SetResourceID ca id
  | WithExpires t => SetExpiry ca t
  | WithRevision r => SetRevision ca r
  end.

Definition decode (bytes : string) (opts : list MarshalOption)
  : error + CertAuthority :=
  match splitOn "|" bytes with
  | [k; n; c; ak; tk] =>
      inr (foldl applyOption
             (mkCertAuthority n k c (decodeKeys ak) (decodeKeys tk) [] 0 0 None)
             opts)
  | _ => inl (BadParameter "malformed cert authority")
  end.

Definition CertAuthTypes : list CertAuthType :=
  ["host"; "user"; "db"; "db_client"; "openssh"; "jwt"; "saml_idp"; "oidc_idp"].

Definition checkType (t : CertAuthType) : option error :=
  if existsb (String.eqb t) CertAuthTypes then None
  else Some (BadParameter ("authority type is not supported: " +:+ quote t)).

Definition checkID (id : CertAuthID) : option error :=
  match checkType (Type_ id) with
  | Some err => Some err
  | None =>
      if String.eqb (DomainName id) ""
      then Some (BadParameter "identity validation error: empty domain name")
      else None
  end.

Definition validate (ca : CertAuthority) : option error :=
  match checkID (GetID ca) with
  | Some err => Some err
  | None =>
      match ActiveKeys ca with
      | [] => Some (BadParameter "certificate authority missing keys")
      | _ => None
      end
  end.

#[global] Instance KeyPair_eq_dec : EqDecision KeyPair.
Proof. solve_decision. Defined.

Definition equivalent (a b : CertAuthority) : bool :=
  String.eqb (Name a) (Name b) && String.eqb (SubKind a) (SubKind b)
  && String.eqb (ClusterName a) (ClusterName b)
  && bool_decide (ActiveKeys a = ActiveKeys b)
  && bool_decide (AdditionalTrustedKeys a = AdditionalTrustedKeys b)
  && bool_decide (Roles a = Roles b).

#[global] Instance sampleServices : Services := {|
  ValidateCertAuthority := validate;
  MarshalCertAuthority := fun ca => inr (encode ca);
  UnmarshalCertAuthority := decode;
  CertAuthoritiesEquivalent := equivalent;
  CertAuthID_Check := checkID;
  CertAuthType_Check := checkType;
|}.

Definition newCA (kind name : string) (keys : list KeyPair) : CertAuthority :=
  mkCertAuthority name kind name keys [] [] 0 0 None.

Definition hostCA : CertAuthority :=
  newCA "host" "example.com" [mkKeyPair "host-pub" "host-priv"].
Definition userCA : CertAuthority :=
  newCA "user" "example.com" [mkKeyPair "user-pub" "user-priv"].
Definition dbCA : CertAuthority :=
  newCA "db" "example.com" [mkKeyPair "db-pub" "db-priv"].
Definition dbClientCA : CertAuthority :=
  newCA "db_client" "example.com" [mkKeyPair "dbc-pub" "dbc-priv"].

(** Three host authorities and, between them in key order, one item whose
    bytes are not a serialized authority. *)
Definition eastCA : CertAuthority :=
  newCA "host" "east" [mkKeyPair "east-pub" "east-priv"].
Definition northCA : CertAuthority :=
  newCA "host" "north" [mkKeyPair "north-pub" "north-priv"].
Definition westCA : CertAuthority :=
  newCA "host" "west" [mkKeyPair "west-pub" "west-priv"].

Definition corrupted : backend.Store :=
  (backend.PutItem
     (local.CreateCertAuthorities [eastCA; northCA; westCA] backend.empty_store).2
     (backend.mkItem "/authorities/host/mid" "not a cert authority" None 0 0)).2.

(** A set of strings as a list without duplicates. *)
#[global] Instance listSet : expression.SetOps (list string) := {|
  expression.NewSet := remove_dups;
  expression.items := fun l => l;
|}.


(** The store after the four authorities of a cluster are created together. *)
Definition bootstrapped : backend.Store :=
  (local.CreateCertAuthorities [hostCA; userCA; dbCA; dbClientCA]
     backend.empty_store).2.

End sample.

(** * Properties *)

Local Open Scope list_scope.

Import types services local.

(** ** Keys *)

Lemma activeKey_eq (id : CertAuthID) :
  activeKey id = "/authorities/" +:+ Type_ id +:+ "/" +:+ DomainName id.
Proof. reflexivity. Qed.

Lemma inactiveKey_eq (id : CertAuthID) :
  inactiveKey id
  = "/authorities/deactivated/" +:+ Type_ id +:+ "/" +:+ DomainName id.
Proof. reflexivity. Qed.

Lemma length_append (a b : string) :
  String.length (a +:+ b) = String.length a + String.length b.
Proof.
  induction a as [|c a IH]; [reflexivity|].
  change (String c a +:+ b) with (String c (a +:+ b)). cbn. now f_equal.
Qed.

Lemma active_inactive_ne (id : CertAuthID) : activeKey id <> inactiveKey id.
Proof.
  rewrite activeKey_eq, inactiveKey_eq. intros E.
  apply (f_equal String.length) in E.
  rewrite !length_append in E. cbn in E. lia.
Qed.

#[global] Arguments activeKey : simpl never.
#[global] Arguments inactiveKey : simpl never.

(** ** The atomic batch *)

Lemma AtomicWrite_failed (s : backend.Store) (condacts : list backend.ConditionalAction) :
  forallb (backend.holds s) condacts = false ->
  backend.AtomicWrite s condacts = (inl ErrConditionFailed, s).
Proof. intros E. unfold backend.AtomicWrite. now rewrite E. Qed.

Lemma AtomicWrite_applied (s : backend.Store) (condacts : list backend.ConditionalAction) :
  forallb (backend.holds s) condacts = true ->
  backend.AtomicWrite s condacts
  = (inr (backend.clock s + 1)%N,
     backend.mkStore
       (foldl (backend.apply_action (backend.clock s + 1)) (backend.items s) condacts)
       (backend.clock s + 1)).
Proof. intros E. unfold backend.AtomicWrite. now rewrite E. Qed.

Lemma AtomicWrite_error_unchanged (s s' : backend.Store) condacts (err : error) :
  backend.AtomicWrite s condacts = (inl err, s') -> s' = s /\ err = ErrConditionFailed.
Proof.
  unfold backend.AtomicWrite. destruct (forallb _ _); intros E; inversion E; auto.
Qed.

(** ** Rotation between the slots *)

Section Rotation.

Context `{Services}.

Lemma deactivateCommit_cases (id : CertAuthID) (item : backend.Item) (s : backend.Store) :
  match backend.items s !! activeKey id with
  | Some v =>
      if decide (backend.st_Revision v = backend.item_Revision item)
      then deactivateCommit id item s
           = (None, moved (activeKey id) (inactiveKey id) item s)
      else deactivateCommit id item s = (Some (Errorf (deactivateConflictMsg id)), s)
  | None => deactivateCommit id item s = (Some (Errorf (deactivateConflictMsg id)), s)
  end.
Proof.
  unfold deactivateCommit, backend.AtomicWrite, deactivateActions. cbn.
  unfold backend.holds. cbn.
  destruct (backend.items s !! activeKey id) as [v|]; [|reflexivity].
  destruct (decide _) as [E|E].
  - rewrite bool_decide_eq_true_2 by exact E. reflexivity.
  - rewrite bool_decide_eq_false_2 by exact E. reflexivity.
Qed.

Lemma activateCommit_cases (id : CertAuthID) (item : backend.Item) (s : backend.Store) :
  match backend.items s !! inactiveKey id with
  | Some v =>
      if decide (backend.st_Revision v = backend.item_Revision item)
      then activateCommit id item s
           = (None, moved (inactiveKey id) (activeKey id) item s)
      else activateCommit id item s = (Some (Errorf (activateConflictMsg id)), s)
  | None => activateCommit id item s = (Some (Errorf (activateConflictMsg id)), s)
  end.
Proof.
  unfold activateCommit, backend.AtomicWrite, activateActions. cbn.
  unfold backend.holds. cbn.
  destruct (backend.items s !! inactiveKey id) as [v|]; [|reflexivity].
  destruct (decide _) as [E|E].
  - rewrite bool_decide_eq_true_2 by exact E. reflexivity.
  - rewrite bool_decide_eq_false_2 by exact E. reflexivity.
Qed.

Lemma deactivateRead_item (id : CertAuthID) (s : backend.Store) (item : backend.Item) :
  deactivateRead id s = inr item ->
  exists v, backend.items s !! activeKey id = Some v
            /\ item = backend.to_item (activeKey id) v.
Proof.
  unfold deactivateRead, backend.Get, backend.lookup_item.
  destruct (CertAuthID_Check id); [discriminate|].
  destruct (backend.items s !! activeKey id) as [v|]; cbn; [|discriminate].
  intros E. inversion E. eauto.
Qed.

Lemma activateRead_item (id : CertAuthID) (s : backend.Store) (item : backend.Item) :
  activateRead id s = inr item ->
  exists v, backend.items s !! inactiveKey id = Some v
            /\ item = backend.to_item (inactiveKey id) v.
Proof.
  unfold activateRead, backend.Get, backend.lookup_item.
  destruct (CertAuthID_Check id); [discriminate|].
  destruct (backend.items s !! inactiveKey id) as [v|]; cbn; [|discriminate].
  intros E. inversion E. eauto.
Qed.

Lemma moved_movedFrom (src dst : string) (s s2 : backend.Store) (v v2 : backend.Stored) :
  src <> dst ->
  backend.items s !! src = Some v ->
  backend.items s2 !! src = Some v2 ->
  backend.st_Revision v2 = backend.st_Revision v ->
  movedFrom src dst s s2 (moved src dst (backend.to_item src v) s2).
Proof.
  intros Hne Hv Hv2 Hr. exists v, v2. repeat split; auto.
  - cbn. rewrite lookup_insert_ne by auto. apply lookup_delete_eq.
  - eexists. cbn. rewrite lookup_insert_eq. repeat split; reflexivity.
  - intros k H1 H2. cbn. rewrite lookup_insert_ne by auto.
    now rewrite lookup_delete_ne by auto.
Qed.

Lemma deactivateRun_outcome (id : CertAuthID) (s s2 s' : backend.Store) (res : option error) :
  deactivateRun id s s2 = (res, s') ->
  (res = None /\ movedFrom (activeKey id) (inactiveKey id) s s2 s')
  \/ (res <> None /\ s' = s2).
Proof.
  unfold deactivateRun. destruct (deactivateRead id s) as [e|item] eqn:R.
  - intros E. inversion E. right. split; [discriminate|reflexivity].
  - apply deactivateRead_item in R as (v & Hv & ->).
    pose proof (deactivateCommit_cases id (backend.to_item (activeKey id) v) s2) as C.
    destruct (backend.items s2 !! activeKey id) as [v2|] eqn:Hv2.
    + destruct (decide _) as [Hr|Hr]; rewrite C; intros E; inversion E; subst.
      * left. split; [reflexivity|].
        eapply moved_movedFrom; eauto using active_inactive_ne.
      * right. split; [discriminate|reflexivity].
    + rewrite C. intros E; inversion E. right. split; [discriminate|reflexivity].
Qed.

Lemma activateRun_outcome (id : CertAuthID) (s s2 s' : backend.Store) (res : option error) :
  activateRun id s s2 = (res, s') ->
  (res = None /\ movedFrom (inactiveKey id) (activeKey id) s s2 s')
  \/ (res <> None /\ s' = s2).
Proof.
  unfold activateRun. destruct (activateRead id s) as [e|item] eqn:R.
  - intros E. inversion E. right. split; [discriminate|reflexivity].
  - apply activateRead_item in R as (v & Hv & ->).
    pose proof (activateCommit_cases id (backend.to_item (inactiveKey id) v) s2) as C.
    destruct (backend.items s2 !! inactiveKey id) as [v2|] eqn:Hv2.
    + destruct (decide _) as [Hr|Hr]; rewrite C; intros E; inversion E; subst.
      * left. split; [reflexivity|].
        eapply moved_movedFrom; eauto.
        intros E'. symmetry in E'. now apply active_inactive_ne in E'.
      * right. split; [discriminate|reflexivity].
    + rewrite C. intros E; inversion E. right. split; [discriminate|reflexivity].
Qed.

End Rotation.

Section RotationClaims.

Context `{Services}.

(** Whatever the stores, a rotation either applies its move or leaves the
    store it reached as it was, and it keeps the slots of the identity
    consistent. *)
Lemma rotation_outcomes (id : CertAuthID) (s s2 : backend.Store) :
  DeactivateCertAuthority id s = deactivateRun id s s
  /\ ActivateCertAuthority id s = activateRun id s s
  /\ (let r := deactivateRun id s s2 in
      ((r.1 = None /\ movedFrom (activeKey id) (inactiveKey id) s s2 r.2)
       \/ (r.1 <> None /\ r.2 = s2))
      /\ (atMostOneSlot s2 id -> atMostOneSlot r.2 id)
      /\ (present s2 id -> present r.2 id))
  /\ (let r := activateRun id s s2 in
      ((r.1 = None /\ movedFrom (inactiveKey id) (activeKey id) s s2 r.2)
       \/ (r.1 <> None /\ r.2 = s2))
      /\ (atMostOneSlot s2 id -> atMostOneSlot r.2 id)
      /\ (present s2 id -> present r.2 id)).
Proof.
  split; [reflexivity|]. split; [reflexivity|]. split.
  - destruct (deactivateRun id s s2) as [res s'] eqn:R. cbn.
    destruct (deactivateRun_outcome _ _ _ _ _ R) as [[-> M]|[Hn ->]].
    + split; [left; auto|].
      destruct M as (v & v2 & _ & _ & _ & _ & Hsrc & (w & Hdst & _) & _).
      unfold atMostOneSlot, present, inActive, inInactive.
      rewrite Hsrc, Hdst. split.
      * intros _ [[x Hx] _]. discriminate.
      * intros _. right. eauto.
    + split; [right; auto|]. split; auto.
  - destruct (activateRun id s s2) as [res s'] eqn:R. cbn.
    destruct (activateRun_outcome _ _ _ _ _ R) as [[-> M]|[Hn ->]].
    + split; [left; auto|].
      destruct M as (v & v2 & _ & _ & _ & _ & Hsrc & (w & Hdst & _) & _).
      unfold atMostOneSlot, present, inActive, inInactive.
      rewrite Hsrc, Hdst. split.
      * intros _ [_ [x Hx]]. discriminate.
      * intros _. left. eauto.
    + split; [right; auto|]. split; auto.
Qed.


Lemma deactivateCommit_batch (id : CertAuthID) (item : backend.Item) (s2 : backend.Store) :
  deactivateCommit id item s2
  = match backend.AtomicWrite s2
            [ backend.mkCondAct (activeKey id)
                (backend.KindRevision (backend.item_Revision item)) backend.KindDelete;
              backend.mkCondAct (inactiveKey id) backend.KindWhatever
                (backend.KindPut item) ] with
    | (inl _, s') => (Some (Errorf (deactivateConflictMsg id)), s')
    | (inr _, s') => (None, s')
    end.
Proof.
  unfold deactivateCommit. change (deactivateActions id item) with
    [ backend.mkCondAct (activeKey id)
        (backend.KindRevision (backend.item_Revision item)) backend.KindDelete;
      backend.mkCondAct (inactiveKey id) backend.KindWhatever (backend.KindPut item) ].
  destruct (backend.AtomicWrite s2 _) as [[err|r] s'] eqn:W; [|reflexivity].
  apply AtomicWrite_error_unchanged in W as [_ ->]. reflexivity.
Qed.

Lemma activateCommit_batch (id : CertAuthID) (item : backend.Item) (s2 : backend.Store) :
  activateCommit id item s2
  = match backend.AtomicWrite s2
            [ backend.mkCondAct (inactiveKey id)
                (backend.KindRevision (backend.item_Revision item)) backend.KindDelete;
              backend.mkCondAct (activeKey id) backend.KindWhatever
                (backend.KindPut item) ] with
    | (inl _, s') => (Some (Errorf (activateConflictMsg id)), s')
    | (inr _, s') => (None, s')
    end.
Proof.
  unfold activateCommit. change (activateActions id item) with
    [ backend.mkCondAct (inactiveKey id)
        (backend.KindRevision (backend.item_Revision item)) backend.KindDelete;
      backend.mkCondAct (activeKey id) backend.KindWhatever (backend.KindPut item) ].
  destruct (backend.AtomicWrite s2 _) as [[err|r] s'] eqn:W; [|reflexivity].
  apply AtomicWrite_error_unchanged in W as [_ ->]. reflexivity.
Qed.

Lemma moved_slots (src dst : string) (v : backend.Stored) (s2 : backend.Store) :
  src <> dst ->
  backend.items (moved src dst (backend.to_item src v) s2) !! src = None
  /\ backend.items (moved src dst (backend.to_item src v) s2) !! dst
     = Some (backend.mkStored (backend.st_Value v) (backend.st_Expires v)
               (Z.of_N (backend.clock s2 + 1)) (backend.clock s2 + 1))
  /\ (forall k, k <> src -> k <> dst ->
        backend.items (moved src dst (backend.to_item src v) s2) !! k
        = backend.items s2 !! k).
Proof.
  intros Hne. cbn. split; [|split].
  - rewrite lookup_insert_ne by auto. apply lookup_delete_eq.
  - apply lookup_insert_eq.
  - intros k H1 H2. rewrite lookup_insert_ne by auto. now rewrite lookup_delete_ne by auto.
Qed.

Lemma deactivateRun_fenced (id : CertAuthID) (s s2 : backend.Store) (v : backend.Stored) :
  CertAuthID_Check id = None ->
  backend.items s !! activeKey id = Some v ->
  let item := backend.to_item (activeKey id) v in
  deactivateRead id s = inr item
  /\ deactivateRun id s s2 = deactivateCommit id item s2
  /\ (forall v2, backend.items s2 !! activeKey id = Some v2 ->
        backend.st_Revision v2 = backend.st_Revision v ->
        deactivateRun id s s2
        = (None, moved (activeKey id) (inactiveKey id) item s2))
  /\ ((forall v2, backend.items s2 !! activeKey id = Some v2 ->
         backend.st_Revision v2 <> backend.st_Revision v) ->
      deactivateRun id s s2 = (Some (Errorf (deactivateConflictMsg id)), s2)).
Proof.
  intros Hid Hv item.
  assert (R : deactivateRead id s = inr item).
  { unfold deactivateRead, backend.Get, backend.lookup_item. now rewrite Hid, Hv. }
  assert (E : deactivateRun id s s2 = deactivateCommit id item s2).
  { unfold deactivateRun. now rewrite R. }
  split; [exact R|]. split; [exact E|]. rewrite E.
  pose proof (deactivateCommit_cases id item s2) as C. split.
  - intros v2 Hv2 Hr. rewrite Hv2 in C.
    destruct (decide _) as [_|N]; [exact C|now destruct N].
  - intros Hstale. destruct (backend.items s2 !! activeKey id) as [v2|] eqn:Hv2;
      [|exact C].
    destruct (decide _) as [Hr|_]; [|exact C]. now destruct (Hstale v2 eq_refl).
Qed.

Lemma activateRun_fenced (id : CertAuthID) (s s2 : backend.Store) (v : backend.Stored) :
  CertAuthID_Check id = None ->
  backend.items s !! inactiveKey id = Some v ->
  let item := backend.to_item (inactiveKey id) v in
  activateRead id s = inr item
  /\ activateRun id s s2 = activateCommit id item s2
  /\ (forall v2, backend.items s2 !! inactiveKey id = Some v2 ->
        backend.st_Revision v2 = backend.st_Revision v ->
        activateRun id s s2
        = (None, moved (inactiveKey id) (activeKey id) item s2))
  /\ ((forall v2, backend.items s2 !! inactiveKey id = Some v2 ->
         backend.st_Revision v2 <> backend.st_Revision v) ->
      activateRun id s s2 = (Some (Errorf (activateConflictMsg id)), s2)).
Proof.
  intros Hid Hv item.
  assert (R : activateRead id s = inr item).
  { unfold activateRead, backend.Get, backend.lookup_item. now rewrite Hid, Hv. }
  assert (E : activateRun id s s2 = activateCommit id item s2).
  { unfold activateRun. now rewrite R. }
  split; [exact R|]. split; [exact E|]. rewrite E.
  pose proof (activateCommit_cases id item s2) as C. split.
  - intros v2 Hv2 Hr. rewrite Hv2 in C.
    destruct (decide _) as [_|N]; [exact C|now destruct N].
  - intros Hstale. destruct (backend.items s2 !! inactiveKey id) as [v2|] eqn:Hv2;
      [|exact C].
    destruct (decide _) as [Hr|_]; [|exact C]. now destruct (Hstale v2 eq_refl).
Qed.

(** C3. Deactivate, and symmetrically Activate, is one atomic move between
    the two slots of an identity.  The call reads the source slot in the
    store [s], which gives the item and its revision, and submits one atomic
    write of two actions: delete the source key if its revision is the one
    read, and put the item read at the destination key.  The batch reaches
    the backend in the store [s2] (the call on its own is [s2 = s]).  When
    the source revision in [s2] is the one read the call succeeds: the
    source key is gone, the destination key holds the bytes and expiry read,
    and every other key is untouched.  When it is not, or the source key is
    gone, the call fails and the store is exactly [s2].  In every case an
    identity held in at most one slot stays in at most one slot, and an
    identity that is present stays present. *)
Theorem rotation_is_one_atomic_move
    (id : CertAuthID) (s s2 : backend.Store) (v : backend.Stored) :
  CertAuthID_Check id = None ->
  (let r := deactivateRun id s s2 in
   ((r.1 = None /\ movedFrom (activeKey id) (inactiveKey id) s s2 r.2)
    \/ (r.1 <> None /\ r.2 = s2))
   /\ (atMostOneSlot s2 id -> atMostOneSlot r.2 id)
   /\ (present s2 id -> present r.2 id))
  /\ (let r := activateRun id s s2 in
      ((r.1 = None /\ movedFrom (inactiveKey id) (activeKey id) s s2 r.2)
       \/ (r.1 <> None /\ r.2 = s2))
      /\ (atMostOneSlot s2 id -> atMostOneSlot r.2 id)
      /\ (present s2 id -> present r.2 id))
  /\ (backend.items s !! activeKey id = Some v ->
      let item := backend.to_item (activeKey id) v in
      let after := moved (activeKey id) (inactiveKey id) item s2 in
      deactivateRead id s = inr item
      /\ backend.item_Revision item = backend.st_Revision v
      /\ deactivateRun id s s2
         = match backend.AtomicWrite s2
                   [ backend.mkCondAct (activeKey id)
                       (backend.KindRevision (backend.st_Revision v))
                       backend.KindDelete;
                     backend.mkCondAct (inactiveKey id) backend.KindWhatever
                       (backend.KindPut item) ] with
           | (inl _, s') => (Some (Errorf (deactivateConflictMsg id)), s')
           | (inr _, s') => (None, s')
           end
      /\ DeactivateCertAuthority id s
         = (None, moved (activeKey id) (inactiveKey id) item s)
      /\ (forall v2, backend.items s2 !! activeKey id = Some v2 ->
            backend.st_Revision v2 = backend.st_Revision v ->
            deactivateRun id s s2 = (None, after))
      /\ ((forall v2, backend.items s2 !! activeKey id = Some v2 ->
             backend.st_Revision v2 <> backend.st_Revision v) ->
          deactivateRun id s s2 = (Some (Errorf (deactivateConflictMsg id)), s2))
      /\ backend.items after !! activeKey id = None
      /\ backend.items after !! inactiveKey id
         = Some (backend.mkStored (backend.st_Value v) (backend.st_Expires v)
                   (Z.of_N (backend.clock s2 + 1)) (backend.clock s2 + 1))
      /\ (forall k, k <> activeKey id -> k <> inactiveKey id ->
            backend.items after !! k = backend.items s2 !! k))
  /\ (backend.items s !! inactiveKey id = Some v ->
      let item := backend.to_item (inactiveKey id) v in
      let after := moved (inactiveKey id) (activeKey id) item s2 in
      activateRead id s = inr item
      /\ backend.item_Revision item = backend.st_Revision v
      /\ activateRun id s s2
         = match backend.AtomicWrite s2
                   [ backend.mkCondAct (inactiveKey id)
                       (backend.KindRevision (backend.st_Revision v))
                       backend.KindDelete;
                     backend.mkCondAct (activeKey id) backend.KindWhatever
                       (backend.KindPut item) ] with
           | (inl _, s') => (Some (Errorf (activateConflictMsg id)), s')
           | (inr _, s') => (None, s')
           end
      /\ ActivateCertAuthority id s
         = (None, moved (inactiveKey id) (activeKey id) item s)
      /\ (forall v2, backend.items s2 !! inactiveKey id = Some v2 ->
            backend.st_Revision v2 = backend.st_Revision v ->
            activateRun id s s2 = (None, after))
      /\ ((forall v2, backend.items s2 !! inactiveKey id = Some v2 ->
             backend.st_Revision v2 <> backend.st_Revision v) ->
          activateRun id s s2 = (Some (Errorf (activateConflictMsg id)), s2))
      /\ backend.items after !! inactiveKey id = None
      /\ backend.items after !! activeKey id
         = Some (backend.mkStored (backend.st_Value v) (backend.st_Expires v)
                   (Z.of_N (backend.clock s2 + 1)) (backend.clock s2 + 1))
      /\ (forall k, k <> inactiveKey id -> k <> activeKey id ->
            backend.items after !! k = backend.items s2 !! k)).
Proof.
  intros Hid.
  destruct (rotation_outcomes id s s2) as (_ & _ & D & A).
  split; [exact D|]. split; [exact A|]. split.
  - intros Hv item after.
    destruct (deactivateRun_fenced id s s2 v Hid Hv) as (R & E & Hok & Hstale).
    destruct (deactivateRun_fenced id s s v Hid Hv) as (_ & _ & Hself & _).
    destruct (moved_slots (activeKey id) (inactiveKey id) v s2
                (active_inactive_ne id)) as (M1 & M2 & M3).
    split; [exact R|]. split; [reflexivity|].
    split; [rewrite E; apply deactivateCommit_batch|].
    split; [exact (Hself v Hv eq_refl)|].
    split; [exact Hok|]. split; [exact Hstale|].
    split; [exact M1|]. split; [exact M2|exact M3].
  - intros Hv item after.
    destruct (activateRun_fenced id s s2 v Hid Hv) as (R & E & Hok & Hstale).
    destruct (activateRun_fenced id s s v Hid Hv) as (_ & _ & Hself & _).
    assert (Hne : inactiveKey id <> activeKey id).
    { intros X. symmetry in X. now apply active_inactive_ne in X. }
    destruct (moved_slots (inactiveKey id) (activeKey id) v s2 Hne) as (M1 & M2 & M3).
    split; [exact R|]. split; [reflexivity|].
    split; [rewrite E; apply activateCommit_batch|].
    split; [exact (Hself v Hv eq_refl)|].
    split; [exact Hok|]. split; [exact Hstale|].
    split; [exact M1|]. split; [exact M2|exact M3].
Qed.

(** C4, as the code has it.  When the fenced batch of Deactivate or of
    Activate fails its condition the call returns the error built by
    [trace.Errorf], which carries the message about the concurrent
    modification and no kind, and writes nothing.  Of two Deactivate calls
    that both read the active record of [id] in [s], the one whose batch
    arrives first succeeds and the other receives that error; the record
    ends in the inactive slot only. *)
Theorem racing_rotation_reports_untyped_error
    (id : CertAuthID) (s : backend.Store) (v : backend.Stored) :
  CertAuthID_Check id = None ->
  backend.items s !! activeKey id = Some v ->
  let item := backend.to_item (activeKey id) v in
  let first := deactivateCommit id item s in
  let second := deactivateCommit id item first.2 in
  (forall it s2, forallb (backend.holds s2) (deactivateActions id it) = false ->
     deactivateCommit id it s2 = (Some (Errorf (deactivateConflictMsg id)), s2))
  /\ (forall it s2, forallb (backend.holds s2) (activateActions id it) = false ->
     activateCommit id it s2 = (Some (Errorf (activateConflictMsg id)), s2))
  /\ IsCompareFailed (Errorf (deactivateConflictMsg id)) = false
  /\ deactivateRead id s = inr item
  /\ first.1 = None
  /\ second = (Some (Errorf (deactivateConflictMsg id)), first.2)
  /\ inInactive second.2 id /\ ~ inActive second.2 id.
Proof.
  intros Hid Hv item first second.
  split; [|split; [|split; [reflexivity|]]].
  - intros it s2 E. unfold deactivateCommit.
    now rewrite (AtomicWrite_failed _ _ E).
  - intros it s2 E. unfold activateCommit.
    now rewrite (AtomicWrite_failed _ _ E).
  - assert (R : deactivateRead id s = inr item).
    { unfold deactivateRead, backend.Get, backend.lookup_item.
      now rewrite Hid, Hv. }
    split; [exact R|].
    pose proof (deactivateCommit_cases id item s) as C.
    rewrite Hv in C. destruct (decide _) as [_|Hn]; [|now destruct Hn].
    assert (A : backend.items first.2 !! activeKey id = None).
    { subst first. rewrite C. cbn.
      rewrite lookup_insert_ne by (intros E; symmetry in E; now apply active_inactive_ne in E).
      apply lookup_delete_eq. }
    assert (S2 : second = (Some (Errorf (deactivateConflictMsg id)), first.2)).
    { subst second. pose proof (deactivateCommit_cases id item first.2) as C2.
      now rewrite A in C2. }
    split; [subst first; now rewrite C|]. split; [exact S2|].
    rewrite S2. cbn. unfold inInactive, inActive. rewrite A. split.
    + subst first. rewrite C. cbn. rewrite lookup_insert_eq. eauto.
    + intros [x Hx]. discriminate.
Qed.

(** C5, as the code has it.  When the active slot of [id] is absent,
    DeactivateCertAuthority turns the backend's NotFound into the error
    built by [trace.Errorf] that says the authority is not currently
    active; the error has no kind, and nothing is written. *)
Theorem deactivate_absent_reports_not_active (id : CertAuthID) (s : backend.Store) :
  CertAuthID_Check id = None ->
  backend.items s !! activeKey id = None ->
  DeactivateCertAuthority id s = (Some (Errorf (notActiveMsg id)), s)
  /\ IsNotFound (Errorf (notActiveMsg id)) = false.
Proof.
  intros Hid Hv. split; [|reflexivity].
  unfold DeactivateCertAuthority, deactivateRead, backend.Get, backend.lookup_item.
  now rewrite Hid, Hv.
Qed.

End RotationClaims.

(** On the sample store, two Deactivate calls on the host authority that
    read the same item: the second batch fails its revision condition and
    the call returns an error that is not of the CompareFailed kind. *)
Lemma racing_deactivate_not_conflict :
  let id := GetID sample.hostCA in
  exists item s1 e,
    deactivateRead id sample.bootstrapped = inr item
    /\ deactivateCommit id item sample.bootstrapped = (None, s1)
    /\ backend.AtomicWrite s1 (deactivateActions id item) = (inl ErrConditionFailed, s1)
    /\ deactivateCommit id item s1 = (Some e, s1)
    /\ IsCompareFailed e = false.
Proof.
  do 3 eexists. repeat split; vm_compute; reflexivity.
Qed.

Lemma racing_rotation_witness :
  exists v, backend.items sample.bootstrapped !! activeKey (GetID sample.hostCA) = Some v
    /\ (deactivateCommit (GetID sample.hostCA)
          (backend.to_item (activeKey (GetID sample.hostCA)) v)
          sample.bootstrapped).1 = None.
Proof.
  eexists. split; [vm_compute; reflexivity|].
  eapply (racing_rotation_reports_untyped_error (GetID sample.hostCA) sample.bootstrapped);
    vm_compute; reflexivity.
Defined.

(** On the empty store, Deactivate of the host authority fails with an error
    that is not of the NotFound kind. *)
Lemma deactivate_absent_not_notfound :
  exists e,
    DeactivateCertAuthority (GetID sample.hostCA) backend.empty_store
    = (Some e, backend.empty_store)
    /\ IsNotFound e = false.
Proof. eexists. split; vm_compute; reflexivity. Qed.

Lemma deactivate_absent_witness :
  DeactivateCertAuthority (GetID sample.hostCA) backend.empty_store
  = (Some (Errorf (notActiveMsg (GetID sample.hostCA))), backend.empty_store)
  /\ IsNotFound (Errorf (notActiveMsg (GetID sample.hostCA))) = false.
Proof.
  apply (deactivate_absent_reports_not_active (GetID sample.hostCA) backend.empty_store);
    vm_compute; reflexivity.
Defined.

(** ** Single-key writes *)

Lemma PutItem_store (s : backend.Store) (it : backend.Item) :
  (backend.PutItem s it).2
  = backend.mkStore
      (<[backend.item_Key it := backend.stamp (backend.clock s + 1) it]> (backend.items s))
      (backend.clock s + 1).
Proof. reflexivity. Qed.

Lemma CompareAndSwap_stale (s : backend.Store) (expected new : backend.Item) :
  backend.item_Key expected = backend.item_Key new ->
  (forall cur, backend.items s !! backend.item_Key expected = Some cur ->
               backend.st_Value cur <> backend.item_Value expected) ->
  exists msg, backend.CompareAndSwap s expected new = (inl (CompareFailed msg), s).
Proof.
  intros K Hne. unfold backend.CompareAndSwap.
  rewrite K, String.eqb_refl. cbn. rewrite <- K.
  destruct (backend.items s !! backend.item_Key expected) as [cur|] eqn:L; [|eauto].
  destruct (String.eqb_spec (backend.st_Value cur) (backend.item_Value expected)) as [E|E].
  - now destruct (Hne cur eq_refl).
  - eauto.
Qed.

Lemma CompareAndSwap_fresh (s : backend.Store) (expected new : backend.Item)
    (cur : backend.Stored) :
  backend.item_Key expected = backend.item_Key new ->
  backend.items s !! backend.item_Key expected = Some cur ->
  backend.st_Value cur = backend.item_Value expected ->
  backend.CompareAndSwap s expected new = backend.PutItem s new.
Proof.
  intros K L E. unfold backend.CompareAndSwap.
  rewrite K, String.eqb_refl. cbn. rewrite <- K, L.
  now rewrite E, String.eqb_refl.
Qed.

Section WriteClaims.

Context `{Services}.

(** C6. CompareAndSwapCertAuthority over a stored value that is not
    equivalent to [expected] fails with CompareFailed and leaves the store
    as it is.  Over an equivalent one it issues one backend compare-and-swap
    whose base is the item just read: on the store it was read from the new
    item is put, and when the batch reaches a store [s2] in which the key is
    gone or holds other bytes the outcome is the same CompareFailed error,
    with [s2] unchanged. *)
Theorem compare_and_swap_cert_authority
    (new expected actual : CertAuthority) (s : backend.Store) (v : backend.Stored) :
  ValidateCertAuthority new = None ->
  backend.items s !! casKey new = Some v ->
  UnmarshalCertAuthority (backend.st_Value v) [] = inr actual ->
  let conflict := CompareFailed (updatedMsg (GetName new)) in
  let actualItem := backend.to_item (casKey new) v in
  CompareAndSwapCertAuthority new expected s = casRun new expected s s
  /\ (GetName new = ClusterName new -> casKey new = activeKey (GetID new))
  /\ IsCompareFailed conflict = true
  /\ (CertAuthoritiesEquivalent actual expected = false ->
      forall s2, casRun new expected s s2 = (Some conflict, s2))
  /\ (CertAuthoritiesEquivalent actual expected = true ->
      forall newValue, MarshalCertAuthority new = inr newValue ->
      let newItem :=
        backend.mkItem (casKey new) newValue (Expiry new) 0 (GetRevision new) in
      casRead new expected s = inr actualItem
      /\ (forall s2,
            casRun new expected s s2
            = match backend.CompareAndSwap s2 actualItem newItem with
              | (inl err, s') =>
                  (Some (if IsCompareFailed err then conflict else err), s')
              | (inr _, s') => (None, s')
              end)
      /\ CompareAndSwapCertAuthority new expected s
         = (None, (backend.PutItem s newItem).2)
      /\ (forall s2,
            (forall cur, backend.items s2 !! casKey new = Some cur ->
                         backend.st_Value cur <> backend.st_Value v) ->
            casRun new expected s s2 = (Some conflict, s2))).
Proof.
  intros Hval Hv Hun conflict actualItem.
  assert (Hget : backend.Get s (casKey new) = inr actualItem).
  { unfold backend.Get, backend.lookup_item. now rewrite Hv. }
  split; [reflexivity|]. split.
  { intros E. unfold casKey, activeKey, GetType, GetID. cbn. now rewrite E. }
  split; [reflexivity|]. split.
  - intros Hne s2. unfold casRun, casRead.
    rewrite Hval, Hget. cbn. rewrite Hun, Hne. reflexivity.
  - intros Heq newValue Hm newItem.
    assert (R : casRead new expected s = inr actualItem).
    { unfold casRead. rewrite Hval, Hget. cbn. now rewrite Hun, Heq. }
    assert (Run : forall s2,
              casRun new expected s s2
              = match backend.CompareAndSwap s2 actualItem newItem with
                | (inl err, s') =>
                    (Some (if IsCompareFailed err then conflict else err), s')
                | (inr _, s') => (None, s')
                end).
    { intros s2. unfold casRun. rewrite R. unfold casCommit. rewrite Hm.
      fold newItem.
      destruct (backend.CompareAndSwap s2 actualItem newItem) as [[err|lease] s'];
        [|reflexivity].
      now destruct (IsCompareFailed err). }
    split; [exact R|]. split; [exact Run|]. split.
    + change (CompareAndSwapCertAuthority new expected s) with (casRun new expected s s).
      rewrite Run.
      rewrite (CompareAndSwap_fresh s actualItem newItem v); try reflexivity; auto.
    + intros s2 Hstale. rewrite Run.
      destruct (CompareAndSwap_stale s2 actualItem newItem) as [msg ->];
        [reflexivity|exact Hstale|reflexivity].
Qed.

(** C7. For a valid authority, UpsertCertAuthority writes nothing when the
    read of the Active slot returns an equivalent record; otherwise it puts
    the Active key once, unconditionally, with the expiry of the new value:
    the store differs by that key alone and by one revision. *)
Theorem upsert_skips_equivalent_else_one_put (ca : CertAuthority) (s : backend.Store) :
  ValidateCertAuthority ca = None ->
  (forall existing,
      (GetCertAuthority (GetID ca) true s).1 = inr existing ->
      CertAuthoritiesEquivalent existing ca = true ->
      UpsertCertAuthority ca s = (None, s))
  /\ (forall value,
        MarshalCertAuthority ca = inr value ->
        match (GetCertAuthority (GetID ca) true s).1 with
        | inr existing => CertAuthoritiesEquivalent existing ca = false
        | inl _ => True
        end ->
        let item := backend.mkItem (activeKey (GetID ca)) value (Expiry ca)
                      (GetResourceID ca) (GetRevision ca) in
        let s' := (UpsertCertAuthority ca s).2 in
        UpsertCertAuthority ca s = (None, (backend.PutItem s item).2)
        /\ backend.clock s' = (backend.clock s + 1)%N
        /\ backend.items s' !! activeKey (GetID ca)
           = Some (backend.mkStored value (Expiry ca)
                     (Z.of_N (backend.clock s + 1)) (backend.clock s + 1))
        /\ (forall k, k <> activeKey (GetID ca) ->
                      backend.items s' !! k = backend.items s !! k)).
Proof.
  intros Hval. split.
  - intros existing Hget Heq. unfold UpsertCertAuthority. rewrite Hval.
    destruct (GetCertAuthority (GetID ca) true s) as [[e|ex] s0]; cbn in Hget;
      inversion Hget; subst. now rewrite Heq.
  - intros value Hm Hdiff item s'.
    assert (U : UpsertCertAuthority ca s = (None, (backend.PutItem s item).2)).
    { unfold UpsertCertAuthority. rewrite Hval.
      destruct (GetCertAuthority (GetID ca) true s) as [[e|ex] s0]; cbn in Hdiff.
      - now rewrite Hm.
      - now rewrite Hdiff, Hm. }
    subst s'. rewrite U. split; [reflexivity|]. cbn. split; [reflexivity|].
    split; [apply lookup_insert_eq|].
    intros k Hk. now rewrite lookup_insert_ne by auto.
Qed.

End WriteClaims.

(** ** Objects behind references *)

Lemma Clone_fresh (h : heap) (l : loc) (ca : CertAuthority) :
  h !! l = Some ca ->
  exists l', Clone h l = Some (l', <[l' := ca]> h) /\ h !! l' = None /\ l' <> l.
Proof.
  intros Hl. unfold Clone. rewrite Hl. eexists. split; [reflexivity|].
  assert (N : h !! fresh (dom h) = None).
  { apply not_elem_of_dom. apply is_fresh. }
  split; [exact N|]. intros E. rewrite E in N. congruence.
Qed.

Lemma call_insert (f : CertAuthority -> CertAuthority) (l : loc) (h : heap)
    (ca : CertAuthority) :
  call f l (<[l := ca]> h) = Some (<[l := f ca]> h).
Proof.
  unfold call, heap, loc in *. rewrite lookup_insert_eq.
  now rewrite insert_insert_eq.
Qed.

Section UpdateClaim.

Context `{Services}.

(** C8. UpdateCertAuthority of a valid authority writes under the condition
    that the stored revision is the one the authority carries.  When it is,
    the item is put and the result is a new object, a copy of the input
    with the revision and resource id of the lease; when it is not, or the
    key is absent, the backend's CompareFailed error is returned after that
    single attempt and the store is unchanged.  In every case the object
    the caller passed is as it was. *)
Theorem update_cert_authority_fenced
    (l : loc) (h : heap) (s : backend.Store) (ca : CertAuthority) (value : string) :
  h !! l = Some ca ->
  ValidateCertAuthority ca = None ->
  MarshalCertAuthority ca = inr value ->
  let item := backend.mkItem (activeKey (GetID ca)) value (Expiry ca)
                (GetResourceID ca) (GetRevision ca) in
  let r := (backend.clock s + 1)%N in
  exists res h' s',
    UpdateCertAuthority l h s = Some (res, h', s')
    /\ h' !! l = Some ca
    /\ match backend.items s !! activeKey (GetID ca) with
       | Some cur =>
           if decide (backend.st_Revision cur = GetRevision ca)
           then s' = (backend.PutItem s item).2
                /\ exists l', res = inr l' /\ l' <> l /\ h !! l' = None
                   /\ h' !! l' = Some (SetResourceID (SetRevision ca r) (Z.of_N r))
                   /\ (forall k, k <> l' -> h' !! k = h !! k)
           else res = inl backend.ErrIncorrectRevision /\ s' = s /\ h' = h
       | None => res = inl backend.ErrIncorrectRevision /\ s' = s /\ h' = h
       end
    /\ IsCompareFailed backend.ErrIncorrectRevision = true.
Proof.
  intros Hl Hval Hm item r.
  unfold UpdateCertAuthority. rewrite Hl. cbn. rewrite Hval, Hm. fold item.
  unfold backend.ConditionalUpdate. cbn.
  destruct (backend.items s !! activeKey (GetID ca)) as [cur|] eqn:L.
  - destruct (decide _) as [E|E].
    + destruct (Clone_fresh h l ca Hl) as (l' & -> & Hfresh & Hne). cbn.
      do 3 eexists. split.
      { rewrite call_insert. cbn. rewrite call_insert. reflexivity. }
      unfold heap, loc in *. split.
      { rewrite lookup_insert_ne by auto. exact Hl. }
      split; [|reflexivity]. split; [reflexivity|].
      exists l'. split; [reflexivity|]. split; [exact Hne|]. split; [exact Hfresh|].
      split; [apply lookup_insert_eq|].
      intros k Hk. now rewrite lookup_insert_ne by auto.
    + do 3 eexists. split; [reflexivity|]. split; [exact Hl|]. split; auto.
  - do 3 eexists. split; [reflexivity|]. split; [exact Hl|]. split; auto.
Qed.

End UpdateClaim.

(** ** Reads *)

Lemma WithoutSecrets_public (ks : list KeyPair) :
  PublicKey <$> WithoutSecrets ks = PublicKey <$> ks.
Proof. unfold WithoutSecrets. rewrite <- list_fmap_compose. reflexivity. Qed.

Lemma WithoutSecrets_private (ks : list KeyPair) :
  Forall (fun k => k = "") (PrivateKey <$> WithoutSecrets ks).
Proof.
  unfold WithoutSecrets. rewrite <- list_fmap_compose.
  apply Forall_fmap. now apply Forall_true.
Qed.

Lemma RemoveCASecrets_secrets (ca : CertAuthority) :
  secrets (RemoveCASecrets ca) = [].
Proof.
  unfold secrets, RemoveCASecrets. cbn. rewrite fmap_app.
  assert (F : Forall (fun k => k = "")
                ((PrivateKey <$> WithoutSecrets (ActiveKeys ca))
                 ++ (PrivateKey <$> WithoutSecrets (AdditionalTrustedKeys ca)))%list).
  { apply Forall_app. split; apply WithoutSecrets_private. }
  induction F as [|k ks -> _ IH]; [reflexivity|].
  rewrite filter_cons_False; [exact IH|]. intros N. now apply N.
Qed.

Section ReadClaims.

Context `{Services}.

Lemma GetCertAuthority_store (id : CertAuthID) (load : bool) (s : backend.Store) :
  (GetCertAuthority id load s).2 = s.
Proof.
  unfold GetCertAuthority.
  destruct (CertAuthID_Check id); [reflexivity|].
  destruct (backend.Get s (activeKey id)) as [e|item]; [reflexivity|].
  destruct (UnmarshalCertAuthority _ _) as [e|ca]; [reflexivity|].
  now destruct (ValidateCertAuthority ca).
Qed.

(** C10. For a stored identity, GetCertAuthority with [loadSigningKeys]
    false returns the record of the Active slot with its private keys
    blanked and everything else as decoded; with [loadSigningKeys] true it
    returns the record as decoded.  The store after either read is the store
    before it, so a later read with the keys still finds them. *)
Theorem get_cert_authority_redacts_on_read
    (id : CertAuthID) (s : backend.Store) (v : backend.Stored) (ca : CertAuthority) :
  CertAuthID_Check id = None ->
  backend.items s !! activeKey id = Some v ->
  UnmarshalCertAuthority (backend.st_Value v)
    (itemOptions (backend.to_item (activeKey id) v)) = inr ca ->
  ValidateCertAuthority ca = None ->
  GetCertAuthority id false s = (inr (RemoveCASecrets ca), s)
  /\ GetCertAuthority id true s = (inr ca, s)
  /\ secrets (RemoveCASecrets ca) = []
  /\ SetRevision (RemoveCASecrets ca) 0
     = mkCertAuthority (Name ca) (SubKind ca) (ClusterName ca)
         (WithoutSecrets (ActiveKeys ca)) (WithoutSecrets (AdditionalTrustedKeys ca))
         (Roles ca) 0 (ResourceID ca) (Expires ca)
  /\ PublicKey <$> ActiveKeys (RemoveCASecrets ca) = PublicKey <$> ActiveKeys ca
  /\ PublicKey <$> AdditionalTrustedKeys (RemoveCASecrets ca)
     = PublicKey <$> AdditionalTrustedKeys ca
  /\ backend.items (GetCertAuthority id false s).2 !! activeKey id = Some v
  /\ GetCertAuthority id true (GetCertAuthority id false s).2 = (inr ca, s).
Proof.
  intros Hid Hv Hun Hval.
  assert (G : forall load,
             GetCertAuthority id load s = (inr (setSigningKeys ca load), s)).
  { intros load. unfold GetCertAuthority, backend.Get, backend.lookup_item.
    rewrite Hid, Hv. cbn in Hun |- *. now rewrite Hun, Hval. }
  split; [apply (G false)|]. split; [apply (G true)|].
  split; [apply RemoveCASecrets_secrets|]. split; [reflexivity|].
  split; [apply WithoutSecrets_public|]. split; [apply WithoutSecrets_public|].
  rewrite (G false). cbn. split; [exact Hv|apply (G true)].
Qed.

End ReadClaims.

(** ** Listing *)

Section Listing.

Context `{Services}.

Lemma decodeItem_Some (item : backend.Item) (load : bool) (ca : CertAuthority) :
  UnmarshalCertAuthority (backend.item_Value item) (itemOptions item) = inr ca ->
  ValidateCertAuthority ca = None ->
  decodeItem item load = Some (setSigningKeys ca load).
Proof. intros U V. unfold decodeItem. now rewrite U, V. Qed.

(** The loop writes the decoded authority at the index of its item and
    leaves the index of an item it skips as allocated. *)
Lemma listLoop_fill (load : bool) (result : list backend.Item)
    (done : list (option CertAuthority)) :
  listLoop load (length done) result (done ++ replicate (length result) None)
  = done ++ ((fun item => decodeItem item load) <$> result).
Proof.
  revert done. induction result as [|item rest IH]; intros done; [reflexivity|].
  cbn [listLoop length replicate fmap list_fmap]. unfold decodeItem at 1.
  assert (Hnext : forall x : option CertAuthority,
             listLoop load (S (length done)) rest
               (done ++ x :: replicate (length rest) None)
             = done ++ x :: ((fun item => decodeItem item load) <$> rest)).
  { intros x. specialize (IH (done ++ [x])).
    rewrite length_app, <- !app_assoc in IH. cbn in IH.
    now rewrite Nat.add_1_r in IH. }
  destruct (UnmarshalCertAuthority _ _) as [e|ca]; [apply Hnext|].
  destruct (ValidateCertAuthority ca); [apply Hnext|].
  rewrite insert_app_r_alt by lia. rewrite Nat.sub_diag. cbn. apply Hnext.
Qed.

Lemma GetCertAuthorities_decoded (caType : CertAuthType) (load : bool)
    (s : backend.Store) :
  CertAuthType_Check caType = None ->
  GetCertAuthorities caType load s
  = (inr ((fun item => decodeItem item load) <$> scanType caType s), s).
Proof.
  intros Hc. unfold GetCertAuthorities. rewrite Hc.
  pose proof (listLoop_fill load (scanType caType s) []) as F. cbn in F.
  now rewrite F.
Qed.

(** The listing has one entry per scanned item, malformed ones included. *)
Lemma GetCertAuthorities_length (caType : CertAuthType) (load : bool)
    (s : backend.Store) (cas : list (option CertAuthority)) :
  (GetCertAuthorities caType load s).1 = inr cas ->
  length cas = length (scanType caType s).
Proof.
  unfold GetCertAuthorities. destruct (CertAuthType_Check caType); [discriminate|].
  cbn. intros E. inversion E.
  pose proof (listLoop_fill load (scanType caType s) []) as F. cbn in F.
  rewrite F. apply length_fmap.
Qed.

End Listing.

(** C1, at the input of the claim.  Over the store that holds the host
    authorities east, north and west and one corrupted item between them,
    GetCertAuthorities returns four entries: the three authorities and, at
    the index of the corrupted item, a nil entry.  It does not return
    exactly the three valid ones. *)
Theorem listing_keeps_nil_for_corrupted_item :
  length (backend.GetRange sample.corrupted "/authorities/host/"
            (backend.RangeEnd "/authorities/host/") backend.NoLimit) = 4
  /\ (GetCertAuthorities "host" true sample.corrupted).1
     = inr [ Some (SetResourceID (SetRevision sample.eastCA 1) 1);
             None;
             Some (SetResourceID (SetRevision sample.northCA 1) 1);
             Some (SetResourceID (SetRevision sample.westCA 1) 1) ]
  /\ (GetCertAuthorities "host" true sample.corrupted).1
     <> inr [ Some (SetResourceID (SetRevision sample.eastCA 1) 1);
              Some (SetResourceID (SetRevision sample.northCA 1) 1);
              Some (SetResourceID (SetRevision sample.westCA 1) 1) ].
Proof.
  split; [vm_compute; reflexivity|].
  assert (E : (GetCertAuthorities "host" true sample.corrupted).1
              = inr [ Some (SetResourceID (SetRevision sample.eastCA 1) 1);
                      None;
                      Some (SetResourceID (SetRevision sample.northCA 1) 1);
                      Some (SetResourceID (SetRevision sample.westCA 1) 1) ]).
  { vm_compute. reflexivity. }
  split; [exact E|]. rewrite E. intros N. inversion N.
Qed.

(** ** Keys of distinct identities *)

Lemma append_cons (c : ascii) (a b : string) :
  String c a +:+ b = String c (a +:+ b).
Proof. reflexivity. Qed.

Lemma segment_split (t t' d d' : string) :
  backend.hasSeparator t = false ->
  backend.hasSeparator t' = false ->
  t +:+ String backend.Separator d = t' +:+ String backend.Separator d' ->
  t = t' /\ d = d'.
Proof.
  revert t'. induction t as [|c t IH]; intros [|c' t'] Ht Ht' E.
  - change (String backend.Separator d = String backend.Separator d') in E.
    inversion E. auto.
  - change (String backend.Separator d
            = String c' (t' +:+ String backend.Separator d')) in E.
    inversion E; subst. cbn in Ht'. discriminate.
  - change (String c (t +:+ String backend.Separator d)
            = String backend.Separator d') in E.
    inversion E; subst. cbn in Ht. discriminate.
  - rewrite !append_cons in E. injection E as -> E.
    cbn in Ht, Ht'. apply orb_false_iff in Ht as [_ Ht].
    apply orb_false_iff in Ht' as [_ Ht'].
    destruct (IH t' Ht Ht' E) as [-> ->]. auto.
Qed.

Lemma activeKey_inj (a b : CertAuthID) :
  backend.hasSeparator (Type_ a) = false ->
  backend.hasSeparator (Type_ b) = false ->
  activeKey a = activeKey b -> a = b.
Proof.
  intros Ha Hb E. rewrite !activeKey_eq in E.
  change ("/authorities/" +:+ (Type_ a +:+ String backend.Separator (DomainName a))
          = "/authorities/" +:+ (Type_ b +:+ String backend.Separator (DomainName b))) in E.
  rewrite !append_cons in E.
  do 13 (apply (f_equal (fun x => match x with String _ r => r | "" => "" end)) in E;
         cbv beta iota in E).
  change (Type_ a +:+ String backend.Separator (DomainName a)
          = Type_ b +:+ String backend.Separator (DomainName b)) in E.
  destruct (segment_split _ _ _ _ Ha Hb E) as [E1 E2].
  destruct a, b; cbn in *; congruence.
Qed.

Lemma active_ne_inactive (a b : CertAuthID) :
  wfType (Type_ a) -> activeKey a <> inactiveKey b.
Proof.
  intros [Ha Hd] E. rewrite activeKey_eq, inactiveKey_eq in E.
  change ("/authorities/" +:+ (Type_ a +:+ String backend.Separator (DomainName a))
          = "/authorities/" +:+
            (deactivatedPrefix +:+ String backend.Separator
               (Type_ b +:+ String backend.Separator (DomainName b)))) in E.
  rewrite !append_cons in E.
  do 13 (apply (f_equal (fun x => match x with String _ r => r | "" => "" end)) in E;
         cbv beta iota in E).
  change (Type_ a +:+ String backend.Separator (DomainName a)
          = deactivatedPrefix +:+ String backend.Separator
              (Type_ b +:+ String backend.Separator (DomainName b))) in E.
  assert (Hp : backend.hasSeparator deactivatedPrefix = false) by reflexivity.
  destruct (segment_split _ _ _ _ Ha Hp E) as [E1 _]. contradiction.
Qed.

(** ** Batch creation *)

Section Creation.

Context `{Services}.

Lemma marshalled_eq (ca : CertAuthority) (value : string) :
  MarshalCertAuthority ca = inr value -> marshalled ca = value.
Proof. intros E. unfold marshalled. now rewrite E. Qed.

Lemma createLoop_acceptable (cas : list CertAuthority)
    (condacts : list backend.ConditionalAction) (clusterNames : list string) :
  Forall acceptable cas ->
  createLoop cas condacts clusterNames
  = inr (condacts ++ batchActions cas, foldl addName clusterNames cas).
Proof.
  intros F. revert condacts clusterNames.
  induction F as [|ca rest [Hv [value Hm]] _ IH]; intros condacts clusterNames.
  - cbn. now rewrite app_nil_r.
  - cbn [createLoop]. rewrite Hv, Hm. fold (addName clusterNames ca).
    rewrite IH. unfold batchActions. cbn [flat_map].
    rewrite (marshalled_eq ca value Hm). now rewrite <- app_assoc.
Qed.






Lemma holds_batch (s : backend.Store) (cas : list CertAuthority) :
  forallb (backend.holds s) (batchActions cas) = true
  <-> forall ca, ca ∈ cas -> backend.items s !! activeKey (GetID ca) = None.
Proof.
  induction cas as [|b rest IH].
  - cbn. split; [|reflexivity]. intros _ ca Hin. now apply elem_of_nil in Hin.
  - unfold batchActions. cbn [flat_map createActions app forallb].
    fold (batchActions rest). unfold backend.holds at 1 2. cbn.
    destruct (backend.items s !! activeKey (GetID b)) as [v|] eqn:L; cbn.
    + split; [discriminate|]. intros Hall.
      specialize (Hall b (list_elem_of_here _ _)). congruence.
    + rewrite IH. split.
      * intros Hall ca Hin. apply elem_of_cons in Hin as [->|Hin]; auto.
      * intros Hall ca Hin. apply Hall. now apply list_elem_of_further.
Qed.















End Creation.

(** ** Exact-prefix ranges *)

Lemma list_ascii_of_string_snoc (p : string) (c : ascii) :
  list_ascii_of_string (p +:+ String c "") = list_ascii_of_string p ++ [c].
Proof.
  induction p as [|x p IH]; [reflexivity|].
  rewrite append_cons. cbn. now rewrite IH.
Qed.

Lemma string_of_list_ascii_snoc (l : list ascii) (c : ascii) :
  string_of_list_ascii (l ++ [c]) = string_of_list_ascii l +:+ String c "".
Proof.
  induction l as [|x l IH]; [reflexivity|].
  cbn. rewrite IH. now rewrite append_cons.
Qed.

(** The upper bound of an exact key: its closing separator becomes the next
    byte. *)
Lemma RangeEnd_exact (p : string) :
  backend.RangeEnd (p +:+ String backend.Separator "") = p +:+ "0".
Proof.
  unfold backend.RangeEnd. rewrite list_ascii_of_string_snoc, rev_unit.
  cbn [backend.nextKey_rev].
  replace (N_of_ascii backend.Separator <? 255)%N with true by reflexivity.
  replace (ascii_of_N (N_of_ascii backend.Separator + 1)) with "0"%char
    by reflexivity.
  cbn [rev]. rewrite rev_involutive, string_of_list_ascii_snoc.
  now rewrite string_of_list_ascii_of_string.
Qed.

Lemma ascii_compare_refl (c : ascii) : Ascii.compare c c = Eq.
Proof. unfold Ascii.compare. apply N.compare_refl. Qed.

Lemma ascii_compare_eqb (a b : ascii) :
  Ascii.eqb a b = match Ascii.compare a b with Eq => true | _ => false end.
Proof.
  destruct (Ascii.eqb_spec a b) as [->|N].
  - now rewrite ascii_compare_refl.
  - destruct (Ascii.compare a b) eqn:C; try reflexivity.
    apply Ascii.compare_eq_iff in C. contradiction.
Qed.

Lemma in_range_separator (k : string) :
  backend.in_range (String backend.Separator "") "0" k
  = backend.isPrefix (String backend.Separator "") k.
Proof.
  destruct k as [|x k]; [reflexivity|].
  destruct x as [[] [] [] [] [] [] [] []]; destruct k; reflexivity.
Qed.

Lemma in_range_exact (p k : string) :
  backend.in_range (p +:+ String backend.Separator "") (p +:+ "0") k
  = backend.isPrefix (p +:+ String backend.Separator "") k.
Proof.
  revert k. induction p as [|c p IH]; intros k; [apply in_range_separator|].
  rewrite !append_cons. destruct k as [|x k]; [reflexivity|].
  specialize (IH k). revert IH.
  unfold backend.in_range, backend.key_leb, backend.key_ltb, String.leb, String.ltb.
  cbn [String.compare backend.isPrefix].
  rewrite (ascii_compare_eqb c x), (Ascii.compare_antisym c x).
  destruct (Ascii.compare x c); cbn; auto.
Qed.

Lemma isPrefix_append (p k : string) :
  backend.isPrefix p k = true <-> exists d, k = p +:+ d.
Proof.
  revert k. induction p as [|c p IH]; intros k.
  - cbn. split; [intros _; exists k; reflexivity|reflexivity].
  - destruct k as [|x k].
    + cbn. split; [discriminate|]. intros [d E]. rewrite append_cons in E. discriminate.
    + cbn. rewrite andb_true_iff, IH, Ascii.eqb_eq. split.
      * intros [-> [d ->]]. exists d. now rewrite append_cons.
      * intros [d E]. rewrite append_cons in E. injection E as -> ->. eauto.
Qed.

Lemma typeStart_eq (caType : CertAuthType) :
  typeStart caType = ("/authorities/" +:+ caType) +:+ String backend.Separator "".
Proof. reflexivity. Qed.

Lemma append_assoc (a b c : string) : (a +:+ b) +:+ c = a +:+ (b +:+ c).
Proof.
  induction a as [|x a IH]; [reflexivity|].
  rewrite !append_cons. now rewrite IH.
Qed.

(** A key lies in the range scanned for a type exactly when it is the Active
    key of an identity of that type. *)
Lemma in_type_range (caType : CertAuthType) (k : string) :
  backend.in_range (typeStart caType) (backend.RangeEnd (typeStart caType)) k = true
  <-> exists d, k = activeKey (mkCertAuthID caType d).
Proof.
  rewrite typeStart_eq, RangeEnd_exact, in_range_exact, isPrefix_append.
  split; intros [d ->]; exists d; rewrite activeKey_eq; cbn [Type_ DomainName];
    now rewrite !append_assoc.
Qed.

Lemma other_type_out_of_range (t1 t2 : CertAuthType) (d2 : string) :
  wfType t1 -> backend.hasSeparator t2 = false -> t1 <> t2 ->
  backend.in_range (typeStart t1) (backend.RangeEnd (typeStart t1))
    (activeKey (mkCertAuthID t2 d2)) = false
  /\ backend.in_range (typeStart t1) (backend.RangeEnd (typeStart t1))
       (inactiveKey (mkCertAuthID t2 d2)) = false
  /\ backend.in_range (typeStart t1) (backend.RangeEnd (typeStart t1))
       (inactiveKey (mkCertAuthID t1 d2)) = false.
Proof.
  intros W1 S2 Hne. repeat split.
  - destruct (backend.in_range _ _ _) eqn:E; [|reflexivity].
    apply in_type_range in E as [d E]. apply activeKey_inj in E; cbn; auto.
    + inversion E. congruence.
    + apply W1.
  - destruct (backend.in_range _ _ _) eqn:E; [|reflexivity].
    apply in_type_range in E as [d E]. symmetry in E.
    now apply active_ne_inactive in E.
  - destruct (backend.in_range _ _ _) eqn:E; [|reflexivity].
    apply in_type_range in E as [d E]. symmetry in E.
    now apply active_ne_inactive in E.
Qed.

(** ** Range scans of the store *)

Lemma elem_of_insert_sorted (p x : string * backend.Stored)
    (l : list (string * backend.Stored)) :
  x ∈ backend.insert_sorted p l <-> x = p \/ x ∈ l.
Proof.
  induction l as [|q l IH]; cbn.
  - rewrite list_elem_of_singleton. split; [auto|].
    intros [E|E]; [exact E|]. now apply elem_of_nil in E.
  - destruct (backend.key_leb p.1 q.1).
    + now rewrite elem_of_cons.
    + rewrite !elem_of_cons, IH. tauto.
Qed.

Lemma elem_of_sort_by_key (x : string * backend.Stored)
    (l : list (string * backend.Stored)) :
  x ∈ backend.sort_by_key l <-> x ∈ l.
Proof.
  unfold backend.sort_by_key. induction l as [|q l IH]; [reflexivity|].
  cbn. now rewrite elem_of_insert_sorted, IH, elem_of_cons.
Qed.

Lemma elem_of_GetRange (s : backend.Store) (startKey endKey : string)
    (item : backend.Item) :
  item ∈ backend.GetRange s startKey endKey backend.NoLimit
  <-> exists k v, backend.items s !! k = Some v
        /\ backend.in_range startKey endKey k = true
        /\ item = backend.to_item k v.
Proof.
  unfold backend.GetRange, backend.range_map.
  destruct (decide _) as [_|N]; [|now destruct N].
  rewrite list_elem_of_fmap. split.
  - intros ([k v] & -> & Hin). rewrite elem_of_sort_by_key in Hin.
    rewrite elem_of_map_to_list in Hin.
    rewrite map_lookup_filter_Some in Hin. destruct Hin as [L P]. cbn in P. eauto.
  - intros (k & v & L & P & ->). exists (k, v). split; [reflexivity|].
    rewrite elem_of_sort_by_key, elem_of_map_to_list.
    rewrite map_lookup_filter_Some. split; assumption.
Qed.

Lemma DeleteRange_lookup (s : backend.Store) (startKey endKey k : string) :
  backend.items (backend.DeleteRange s startKey endKey).2 !! k
  = if backend.in_range startKey endKey k then None else backend.items s !! k.
Proof.
  cbn. destruct (backend.in_range startKey endKey k) eqn:R.
  - rewrite map_lookup_filter_None. right. intros v _. cbn. congruence.
  - destruct (backend.items s !! k) as [v|] eqn:L.
    + rewrite map_lookup_filter_Some. split; assumption.
    + rewrite map_lookup_filter_None. now left.
Qed.

Section TypeScans.

Context `{Services}.

(** C9. For two distinct well-formed type names, in particular when one
    is a textual prefix of the other: the range scanned for [t1] holds
    exactly the Active keys of identities of type [t1], and no Active or
    Inactive key of type [t2]; GetCertAuthorities decodes exactly the items
    stored under that range, and DeleteAllCertAuthorities empties that range
    and leaves every other key, those of [t2] in both slots and the Inactive
    ones of [t1] among them, as it was. *)
Theorem type_scans_are_exact
    (t1 t2 : CertAuthType) (s : backend.Store) :
  wfType t1 -> backend.hasSeparator t2 = false -> t1 <> t2 ->
  let s' := (DeleteAllCertAuthorities t1 s).2 in
  (forall item, item ∈ scanType t1 s <->
      exists d v, backend.items s !! activeKey (mkCertAuthID t1 d) = Some v
                  /\ item = backend.to_item (activeKey (mkCertAuthID t1 d)) v)
  /\ (forall item d2, item ∈ scanType t1 s ->
        backend.item_Key item <> activeKey (mkCertAuthID t2 d2)
        /\ backend.item_Key item <> inactiveKey (mkCertAuthID t2 d2))
  /\ (forall load, CertAuthType_Check t1 = None ->
        GetCertAuthorities t1 load s
        = (inr ((fun item => decodeItem item load) <$> scanType t1 s), s))
  /\ (DeleteAllCertAuthorities t1 s).1 = None
  /\ (forall d, backend.items s' !! activeKey (mkCertAuthID t1 d) = None)
  /\ (forall k, backend.items s' !! k <> backend.items s !! k ->
        exists d, k = activeKey (mkCertAuthID t1 d))
  /\ (forall d2,
        backend.items s' !! activeKey (mkCertAuthID t2 d2)
        = backend.items s !! activeKey (mkCertAuthID t2 d2)
        /\ backend.items s' !! inactiveKey (mkCertAuthID t2 d2)
           = backend.items s !! inactiveKey (mkCertAuthID t2 d2)
        /\ backend.items s' !! inactiveKey (mkCertAuthID t1 d2)
           = backend.items s !! inactiveKey (mkCertAuthID t1 d2)).
Proof.
  intros W1 S2 Hne s'.
  assert (Scan : forall item, item ∈ scanType t1 s <->
            exists d v, backend.items s !! activeKey (mkCertAuthID t1 d) = Some v
                        /\ item = backend.to_item (activeKey (mkCertAuthID t1 d)) v).
  { intros item. unfold scanType. fold (typeStart t1). rewrite elem_of_GetRange. split.
    - intros (k & v & L & R & ->). apply in_type_range in R as [d ->]. eauto.
    - intros (d & v & L & ->). do 2 eexists. split; [exact L|]. split; [|reflexivity].
      apply in_type_range. eauto. }
  assert (Del : forall k,
            backend.items s' !! k
            = if backend.in_range (typeStart t1) (backend.RangeEnd (typeStart t1)) k
              then None else backend.items s !! k).
  { intros k. apply DeleteRange_lookup. }
  split; [exact Scan|]. split.
  { intros item d2 Hin. apply Scan in Hin as (d & v & _ & ->). cbn. split.
    - intros E. apply activeKey_inj in E; cbn; [|apply W1|exact S2].
      inversion E. congruence.
    - apply active_ne_inactive. exact W1. }
  split; [intros load Hc; now apply GetCertAuthorities_decoded|].
  split; [reflexivity|]. split.
  { intros d. rewrite Del.
    assert (R : backend.in_range (typeStart t1) (backend.RangeEnd (typeStart t1))
                  (activeKey (mkCertAuthID t1 d)) = true)
      by (apply in_type_range; eauto).
    now rewrite R. }
  split.
  { intros k. rewrite Del.
    destruct (backend.in_range _ _ k) eqn:R; [|congruence].
    intros _. now apply in_type_range. }
  intros d2. rewrite !Del.
  destruct (other_type_out_of_range t1 t2 d2 W1 S2 Hne) as (R1 & R2 & R3).
  now rewrite R1, R2, R3.
Qed.

End TypeScans.

(** ** The statements on the sample store *)

Lemma sample_acceptable (kind name : string) (keys : list KeyPair) :
  sample.validate (sample.newCA kind name keys) = None ->
  acceptable (sample.newCA kind name keys).
Proof. intros V. split; [exact V|]. eexists. reflexivity. Qed.



Lemma rotation_move_witness :
  DeactivateCertAuthority (GetID sample.hostCA) sample.bootstrapped
  = (None,
     moved (activeKey (GetID sample.hostCA)) (inactiveKey (GetID sample.hostCA))
       (backend.to_item (activeKey (GetID sample.hostCA))
          (backend.mkStored "host|example.com|example.com|host-pub,host-priv|"
             None 1 1))
       sample.bootstrapped).
Proof.
  assert (L : backend.items sample.bootstrapped !! activeKey (GetID sample.hostCA)
              = Some (backend.mkStored
                        "host|example.com|example.com|host-pub,host-priv|" None 1 1))
    by (vm_compute; reflexivity).
  destruct (rotation_is_one_atomic_move (H := sample.sampleServices)
              (GetID sample.hostCA) sample.bootstrapped sample.bootstrapped
              (backend.mkStored "host|example.com|example.com|host-pub,host-priv|"
                 None 1 1) eq_refl)
    as (_ & _ & D & _).
  destruct (D L) as (_ & _ & _ & E & _). exact E.
Defined.

Lemma compare_and_swap_witness :
  CompareAndSwapCertAuthority sample.hostCA sample.userCA sample.bootstrapped
  = (Some (CompareFailed (updatedMsg "example.com")), sample.bootstrapped).
Proof.
  refine (proj1 (proj2 (proj2 (proj2 (compare_and_swap_cert_authority
            sample.hostCA sample.userCA sample.hostCA sample.bootstrapped
            (backend.mkStored "host|example.com|example.com|host-pub,host-priv|"
               None 1 1) _ _ _)))) _ sample.bootstrapped);
    vm_compute; reflexivity.
Defined.

Lemma upsert_witness :
  UpsertCertAuthority sample.hostCA sample.bootstrapped = (None, sample.bootstrapped).
Proof.
  refine (proj1 (upsert_skips_equivalent_else_one_put sample.hostCA
            sample.bootstrapped _)
            (SetResourceID (SetRevision sample.hostCA 1) 1) _ _);
    vm_compute; reflexivity.
Defined.

Lemma update_witness :
  exists res h' s',
    UpdateCertAuthority 1%positive {[ 1%positive := SetRevision sample.hostCA 1 ]}
      sample.bootstrapped = Some (res, h', s')
    /\ h' !! 1%positive = Some (SetRevision sample.hostCA 1).
Proof.
  assert (L : ({[ 1%positive := SetRevision sample.hostCA 1 ]} : heap) !! 1%positive
              = Some (SetRevision sample.hostCA 1)) by (vm_compute; reflexivity).
  assert (V : sample.validate (SetRevision sample.hostCA 1) = None)
    by (vm_compute; reflexivity).
  destruct (update_cert_authority_fenced (H := sample.sampleServices) 1%positive
              {[ 1%positive := SetRevision sample.hostCA 1 ]} sample.bootstrapped
              (SetRevision sample.hostCA 1)
              "host|example.com|example.com|host-pub,host-priv|"
              L V eq_refl)
    as (res & h' & s' & E & Hl & _).
  exists res, h', s'. split; assumption.
Defined.

Lemma type_scans_witness :
  backend.items (DeleteAllCertAuthorities "db" sample.bootstrapped).2
    !! activeKey (GetID sample.dbClientCA)
  = backend.items sample.bootstrapped !! activeKey (GetID sample.dbClientCA).
Proof.
  refine (proj1 ((proj2 (proj2 (proj2 (proj2 (proj2 (proj2
            (type_scans_are_exact "db" "db_client" sample.bootstrapped _ _ _)))))))
            "example.com")).
  - split; [reflexivity|discriminate].
  - reflexivity.
  - discriminate.
Defined.

Lemma get_redacts_witness :
  GetCertAuthority (GetID sample.hostCA) false sample.bootstrapped
  = (inr (RemoveCASecrets (SetResourceID (SetRevision sample.hostCA 1) 1)),
     sample.bootstrapped).
Proof.
  refine (proj1 (get_cert_authority_redacts_on_read (GetID sample.hostCA)
            sample.bootstrapped
            (backend.mkStored "host|example.com|example.com|host-pub,host-priv|"
               None 1 1)
            (SetResourceID (SetRevision sample.hostCA 1) 1) _ _ _ _));
    vm_compute; reflexivity.
Defined.

(** * Further properties of the service *)

(** ** Deleting authorities *)

Lemma unconditional_holds (s : backend.Store) (acts : list backend.ConditionalAction) :
  Forall unconditionalDelete acts -> forallb (backend.holds s) acts = true.
Proof.
  induction 1 as [|c acts [Hc _] _ IH]; [reflexivity|].
  cbn. rewrite IH. unfold backend.holds. now rewrite Hc.
Qed.

Lemma foldl_deletes_lookup (r : N) (acts : list backend.ConditionalAction)
    (m : gmap string backend.Stored) (k : string) :
  Forall unconditionalDelete acts ->
  foldl (backend.apply_action r) m acts !! k
  = if decide (k ∈ backend.ca_Key <$> acts) then None else m !! k.
Proof.
  intros F. revert m. induction F as [|c acts [_ Ha] _ IH]; intros m.
  - cbn. destruct (decide _) as [E|_]; [|reflexivity]. now apply elem_of_nil in E.
  - cbn [foldl]. rewrite IH. unfold backend.apply_action. rewrite Ha.
    rewrite fmap_cons.
    destruct (decide (k ∈ backend.ca_Key <$> acts)) as [E|E].
    + rewrite decide_True by (apply list_elem_of_further; exact E). reflexivity.
    + destruct (decide (k = backend.ca_Key c)) as [->|Hk].
      * rewrite decide_True by apply list_elem_of_here. apply lookup_delete_eq.
      * rewrite decide_False.
        -- now apply lookup_delete_ne.
        -- intros [?|?]%elem_of_cons; contradiction.
Qed.

Section Deleting.

Context `{Services}.

Lemma deleteActions_unconditional (ids : list CertAuthID) :
  Forall unconditionalDelete (flat_map deleteActions ids).
Proof.
  induction ids as [|id ids IH]; [constructor|].
  cbn. repeat constructor; exact IH.
Qed.

Lemma deleteLoop_checked (ids : list CertAuthID)
    (condacts : list backend.ConditionalAction) :
  Forall (fun id => CertAuthID_Check id = None) ids ->
  deleteLoop ids condacts = inr (condacts ++ flat_map deleteActions ids).
Proof.
  intros F. revert condacts. induction F as [|id ids Hid _ IH]; intros condacts.
  - cbn. now rewrite app_nil_r.
  - cbn [deleteLoop flat_map]. rewrite Hid, IH. now rewrite <- app_assoc.
Qed.

Lemma deleteLoop_rejects (pre rest : list CertAuthID) (bad : CertAuthID)
    (err : error) (condacts : list backend.ConditionalAction) :
  Forall (fun id => CertAuthID_Check id = None) pre ->
  CertAuthID_Check bad = Some err ->
  deleteLoop (pre ++ bad :: rest) condacts = inl err.
Proof.
  intros F Hbad. revert condacts. induction F as [|id ids Hid _ IH]; intros condacts.
  - cbn. now rewrite Hbad.
  - cbn [app deleteLoop]. rewrite Hid. apply IH.
Qed.

Lemma elem_of_delete_keys (ids : list CertAuthID) (k : string) :
  k ∈ backend.ca_Key <$> flat_map deleteActions ids
  <-> exists id, id ∈ ids /\ (k = activeKey id \/ k = inactiveKey id).
Proof.
  induction ids as [|id ids IH].
  - cbn. split; [intros E; now apply elem_of_nil in E|].
    intros (id & E & _). now apply elem_of_nil in E.
  - cbn [flat_map]. rewrite fmap_app, elem_of_app, IH. cbn.
    rewrite !elem_of_cons. split.
    + intros [[->|[->|E]]|(x & Hx & Hk)].
      * exists id. split; [now left|now left].
      * exists id. split; [now left|now right].
      * now apply elem_of_nil in E.
      * exists x. split; [now right|exact Hk].
    + intros (x & Hx & Hk). apply elem_of_cons in Hx as [->|Hx].
      * left. destruct Hk as [->| ->]; auto.
      * right. eauto.
Qed.

(** After DeleteCertAuthorities of identities that pass their check the call
    has succeeded whether or not the slots were occupied, both slots of
    every identity are empty, and every key that is not a slot of one of
    them is as before. *)
Theorem delete_clears_both_slots (ids : list CertAuthID) (s : backend.Store) :
  Forall (fun id => CertAuthID_Check id = None) ids ->
  let r := DeleteCertAuthorities ids s in
  r.1 = None
  /\ (forall id, id ∈ ids ->
        backend.items r.2 !! activeKey id = None
        /\ backend.items r.2 !! inactiveKey id = None)
  /\ (forall k, (forall id, id ∈ ids -> k <> activeKey id /\ k <> inactiveKey id) ->
        backend.items r.2 !! k = backend.items s !! k).
Proof.
  intros F r.
  assert (U := deleteActions_unconditional ids).
  assert (E : r = (None,
                   backend.mkStore
                     (foldl (backend.apply_action (backend.clock s + 1))
                        (backend.items s) (flat_map deleteActions ids))
                     (backend.clock s + 1))).
  { subst r. unfold DeleteCertAuthorities. rewrite (deleteLoop_checked ids [] F). cbn.
    now rewrite (AtomicWrite_applied _ _ (unconditional_holds s _ U)). }
  rewrite E. cbn. split; [reflexivity|]. split.
  - intros id Hin. rewrite !foldl_deletes_lookup by exact U.
    rewrite !decide_True; [auto| |]; apply elem_of_delete_keys; eauto.
  - intros k Hk. rewrite foldl_deletes_lookup by exact U.
    rewrite decide_False; [reflexivity|].
    intros (id & Hin & Hor)%elem_of_delete_keys.
    destruct (Hk id Hin). destruct Hor; contradiction.
Qed.

(** DeleteCertAuthorities fails closed: when an identity of the batch fails
    its check, the call returns that error and nothing is deleted, not even
    for the identities that precede it. *)
Theorem delete_rejects_whole_batch
    (pre rest : list CertAuthID) (bad : CertAuthID) (err : error)
    (s : backend.Store) :
  Forall (fun id => CertAuthID_Check id = None) pre ->
  CertAuthID_Check bad = Some err ->
  DeleteCertAuthorities (pre ++ bad :: rest) s = (Some err, s).
Proof.
  intros F Hbad. unfold DeleteCertAuthorities.
  now rewrite (deleteLoop_rejects pre rest bad err [] F Hbad).
Qed.

End Deleting.

(** ** Creating and upserting *)

Lemma inactive_active_ne (id : CertAuthID) : inactiveKey id <> activeKey id.
Proof. intros E. symmetry in E. now apply active_inactive_ne in E. Qed.

Section CreateUpsert.

Context `{Services}.

Lemma createLoop_rejects (pre rest : list CertAuthority) (bad : CertAuthority)
    (err : error) (condacts : list backend.ConditionalAction)
    (clusterNames : list string) :
  Forall acceptable pre ->
  ValidateCertAuthority bad = Some err ->
  createLoop (pre ++ bad :: rest) condacts clusterNames = inl err.
Proof.
  intros F Hbad. revert condacts clusterNames.
  induction F as [|ca pre [Hv [value Hm]] _ IH]; intros condacts clusterNames.
  - cbn. now rewrite Hbad.
  - cbn [app createLoop]. rewrite Hv, Hm. apply IH.
Qed.

(** CreateCertAuthorities fails closed: when a member of the batch fails
    validation the call returns that error and writes nothing, whatever the
    members before and after it are. *)
Theorem create_rejects_whole_batch
    (pre rest : list CertAuthority) (bad : CertAuthority) (err : error)
    (s : backend.Store) :
  Forall acceptable pre ->
  ValidateCertAuthority bad = Some err ->
  CreateCertAuthorities (pre ++ bad :: rest) s = (Some err, s).
Proof.
  intros F Hbad. unfold CreateCertAuthorities.
  now rewrite (createLoop_rejects pre rest bad err [] [] F Hbad).
Qed.

Lemma CreateCertAuthority_absent (ca : CertAuthority) (s : backend.Store) :
  acceptable ca ->
  backend.items s !! activeKey (GetID ca) = None ->
  CreateCertAuthority ca s
  = (None,
     backend.mkStore
       (delete (inactiveKey (GetID ca))
          (<[activeKey (GetID ca) :=
               backend.mkStored (marshalled ca) (Expiry ca)
                 (Z.of_N (backend.clock s + 1)) (backend.clock s + 1)]>
             (backend.items s)))
       (backend.clock s + 1)).
Proof.
  intros Hacc Habs. unfold CreateCertAuthority, CreateCertAuthorities.
  rewrite (createLoop_acceptable [ca] [] []) by (constructor; [exact Hacc|constructor]).
  cbn [app].
  assert (F : forallb (backend.holds s) (batchActions [ca]) = true).
  { apply holds_batch. intros c Hc. apply list_elem_of_singleton in Hc. now subst. }
  rewrite (AtomicWrite_applied _ _ F). reflexivity.
Qed.

Lemma CreateCertAuthority_present (ca : CertAuthority) (s : backend.Store) :
  acceptable ca ->
  inActive s (GetID ca) ->
  CreateCertAuthority ca s
  = (Some (AlreadyExists (alreadyExistMsg [GetName ca])), s).
Proof.
  intros Hacc [v Hv]. unfold CreateCertAuthority, CreateCertAuthorities.
  rewrite (createLoop_acceptable [ca] [] []) by (constructor; [exact Hacc|constructor]).
  cbn [app].
  assert (F : forallb (backend.holds s) (batchActions [ca]) = false).
  { destruct (forallb _ _) eqn:E; [|reflexivity].
    rewrite holds_batch in E. specialize (E ca (list_elem_of_here _ _)). congruence. }
  rewrite (AtomicWrite_failed _ _ F). reflexivity.
Qed.

(** Creating the same authority twice: the first call, on an empty Active
    slot, succeeds; the second fails with AlreadyExists naming its cluster
    and leaves the store of the first untouched. *)
Theorem create_twice_already_exists (ca : CertAuthority) (s : backend.Store) :
  acceptable ca ->
  ~ inActive s (GetID ca) ->
  let first := CreateCertAuthority ca s in
  first.1 = None
  /\ CreateCertAuthority ca first.2
     = (Some (AlreadyExists (alreadyExistMsg [GetName ca])), first.2).
Proof.
  intros Hacc Habs first.
  assert (L : backend.items s !! activeKey (GetID ca) = None).
  { unfold inActive in Habs.
    destruct (backend.items s !! activeKey (GetID ca)); [|reflexivity].
    destruct Habs. eauto. }
  subst first. rewrite (CreateCertAuthority_absent ca s Hacc L).
  split; [reflexivity|]. apply CreateCertAuthority_present; [exact Hacc|].
  unfold inActive. cbn.
  rewrite lookup_delete_ne by apply inactive_active_ne.
  rewrite lookup_insert_eq. eauto.
Qed.

(** Create then Get: after a successful create, GetCertAuthority decodes
    the bytes the create serialized, with the options of the item the
    backend stored, and returns that authority (redacted unless the signing
    keys are asked for). *)
Theorem create_then_get (ca ca' : CertAuthority) (load : bool) (s : backend.Store) :
  acceptable ca ->
  CertAuthID_Check (GetID ca) = None ->
  ~ inActive s (GetID ca) ->
  let r := (backend.clock s + 1)%N in
  UnmarshalCertAuthority (marshalled ca)
    [WithResourceID (Z.of_N r); WithExpires (Expiry ca); WithRevision r] = inr ca' ->
  ValidateCertAuthority ca' = None ->
  (GetCertAuthority (GetID ca) load (CreateCertAuthority ca s).2).1
  = inr (setSigningKeys ca' load).
Proof.
  intros Hacc Hid Habs r Hun Hval.
  assert (L : backend.items s !! activeKey (GetID ca) = None).
  { unfold inActive in Habs.
    destruct (backend.items s !! activeKey (GetID ca)); [|reflexivity].
    destruct Habs. eauto. }
  rewrite (CreateCertAuthority_absent ca s Hacc L). cbn [snd].
  unfold GetCertAuthority, backend.Get, backend.lookup_item. rewrite Hid. cbn.
  rewrite lookup_delete_ne by apply inactive_active_ne.
  rewrite lookup_insert_eq. subst r. unfold itemOptions, backend.to_item.
  cbn in Hun |- *. now rewrite Hun, Hval.
Qed.

(** UpsertCertAuthority never touches a key other than the Active key of
    the authority it is given, whatever its outcome. *)
Theorem upsert_writes_active_key_only
    (ca : CertAuthority) (s : backend.Store) (k : string) :
  k <> activeKey (GetID ca) ->
  backend.items (UpsertCertAuthority ca s).2 !! k = backend.items s !! k.
Proof.
  intros Hk. unfold UpsertCertAuthority.
  destruct (ValidateCertAuthority ca); [reflexivity|].
  destruct (GetCertAuthority (GetID ca) true s) as [[e|ex] s0].
  - destruct (MarshalCertAuthority ca); [reflexivity|]. cbn.
    now rewrite lookup_insert_ne by auto.
  - destruct (CertAuthoritiesEquivalent ex ca); [reflexivity|].
    destruct (MarshalCertAuthority ca); [reflexivity|]. cbn.
    now rewrite lookup_insert_ne by auto.
Qed.

(** Upsert does not clear the Inactive slot: upserting an authority whose
    identity is held in the Inactive slot only succeeds and leaves the
    identity in both slots. *)
Theorem upsert_of_inactive_fills_both_slots
    (ca : CertAuthority) (value : string) (s : backend.Store) :
  ValidateCertAuthority ca = None ->
  MarshalCertAuthority ca = inr value ->
  inInactive s (GetID ca) ->
  ~ inActive s (GetID ca) ->
  (UpsertCertAuthority ca s).1 = None
  /\ inActive (UpsertCertAuthority ca s).2 (GetID ca)
  /\ inInactive (UpsertCertAuthority ca s).2 (GetID ca)
  /\ ~ atMostOneSlot (UpsertCertAuthority ca s).2 (GetID ca).
Proof.
  intros Hval Hm Hin Habs.
  assert (L : backend.items s !! activeKey (GetID ca) = None).
  { unfold inActive in Habs.
    destruct (backend.items s !! activeKey (GetID ca)); [|reflexivity].
    destruct Habs. eauto. }
  assert (U : UpsertCertAuthority ca s
              = (None, (backend.PutItem s
                          (backend.mkItem (activeKey (GetID ca)) value (Expiry ca)
                             (GetResourceID ca) (GetRevision ca))).2)).
  { unfold UpsertCertAuthority. rewrite Hval.
    unfold GetCertAuthority, backend.Get, backend.lookup_item. rewrite L.
    destruct (CertAuthID_Check (GetID ca)); cbn; now rewrite Hm. }
  rewrite U. cbn [fst snd].
  assert (A : inActive (backend.PutItem s
                 (backend.mkItem (activeKey (GetID ca)) value (Expiry ca)
                    (GetResourceID ca) (GetRevision ca))).2 (GetID ca)).
  { unfold inActive. cbn. rewrite lookup_insert_eq. eauto. }
  assert (I : inInactive (backend.PutItem s
                 (backend.mkItem (activeKey (GetID ca)) value (Expiry ca)
                    (GetResourceID ca) (GetRevision ca))).2 (GetID ca)).
  { unfold inInactive. cbn.
    rewrite lookup_insert_ne by apply active_inactive_ne. exact Hin. }
  split; [reflexivity|]. split; [exact A|]. split; [exact I|].
  intros N. apply N. split; assumption.
Qed.

End CreateUpsert.

(** ** Rotation, composed *)

Section RotationComposed.

Context `{Services}.

Lemma Deactivate_present (id : CertAuthID) (s : backend.Store) (v : backend.Stored) :
  CertAuthID_Check id = None ->
  backend.items s !! activeKey id = Some v ->
  DeactivateCertAuthority id s
  = (None, moved (activeKey id) (inactiveKey id)
             (backend.to_item (activeKey id) v) s).
Proof.
  intros Hid Hv. unfold DeactivateCertAuthority, deactivateRead, backend.Get,
    backend.lookup_item. rewrite Hid, Hv. cbn [fmap option_fmap option_map].
  pose proof (deactivateCommit_cases id (backend.to_item (activeKey id) v) s) as C.
  rewrite Hv in C. destruct (decide _) as [_|N]; [exact C|now destruct N].
Qed.

Lemma Activate_present (id : CertAuthID) (s : backend.Store) (v : backend.Stored) :
  CertAuthID_Check id = None ->
  backend.items s !! inactiveKey id = Some v ->
  ActivateCertAuthority id s
  = (None, moved (inactiveKey id) (activeKey id)
             (backend.to_item (inactiveKey id) v) s).
Proof.
  intros Hid Hv. unfold ActivateCertAuthority, activateRead, backend.Get,
    backend.lookup_item. rewrite Hid, Hv. cbn [fmap option_fmap option_map].
  pose proof (activateCommit_cases id (backend.to_item (inactiveKey id) v) s) as C.
  rewrite Hv in C. destruct (decide _) as [_|N]; [exact C|now destruct N].
Qed.

(** Rotation is lossless: Deactivate followed by Activate both succeed and
    put the bytes and the expiry of the record back in the Active slot,
    under a new revision; the Inactive slot is empty again and no other key
    has changed. *)
Theorem deactivate_then_activate_restores
    (id : CertAuthID) (s : backend.Store) (v : backend.Stored) :
  CertAuthID_Check id = None ->
  backend.items s !! activeKey id = Some v ->
  let d := DeactivateCertAuthority id s in
  let a := ActivateCertAuthority id d.2 in
  d.1 = None /\ a.1 = None
  /\ backend.items a.2 !! activeKey id
     = Some (backend.mkStored (backend.st_Value v) (backend.st_Expires v)
               (Z.of_N (backend.clock s + 2)) (backend.clock s + 2))
  /\ backend.items a.2 !! inactiveKey id = None
  /\ (forall k, k <> activeKey id -> k <> inactiveKey id ->
        backend.items a.2 !! k = backend.items s !! k).
Proof.
  intros Hid Hv d a. subst a d.
  rewrite (Deactivate_present id s v Hid Hv). cbn [fst snd].
  erewrite (Activate_present id _ _ Hid);
    [|cbn; apply lookup_insert_eq].
  cbn. replace (backend.clock s + 1 + 1)%N with (backend.clock s + 2)%N by lia.
  split; [reflexivity|]. split; [reflexivity|]. split; [apply lookup_insert_eq|].
  split.
  - rewrite lookup_insert_ne by apply active_inactive_ne. apply lookup_delete_eq.
  - intros k Ha Hi. rewrite lookup_insert_ne by auto.
    rewrite lookup_delete_ne by auto. rewrite lookup_insert_ne by auto.
    now rewrite lookup_delete_ne by auto.
Qed.

(** Activate of an identity whose Inactive slot is empty fails with the
    untyped error that says it is not a currently inactive CA, and writes
    nothing, also when the identity is active. *)
Theorem activate_absent_reports_not_inactive (id : CertAuthID) (s : backend.Store) :
  CertAuthID_Check id = None ->
  backend.items s !! inactiveKey id = None ->
  ActivateCertAuthority id s = (Some (Errorf (notInactiveMsg id)), s).
Proof.
  intros Hid Hv.
  unfold ActivateCertAuthority, activateRead, backend.Get, backend.lookup_item.
  now rewrite Hid, Hv.
Qed.

(** A deactivated authority is hidden from the read paths: after a
    successful Deactivate, GetCertAuthority of the identity returns
    NotFound and the scan of its type lists no item under either of its
    keys. *)
Theorem deactivated_is_hidden_from_reads
    (id : CertAuthID) (load : bool) (s : backend.Store) (v : backend.Stored) :
  CertAuthID_Check id = None ->
  wfType (Type_ id) ->
  backend.items s !! activeKey id = Some v ->
  let s1 := (DeactivateCertAuthority id s).2 in
  (exists msg, GetCertAuthority id load s1 = (inl (NotFound msg), s1))
  /\ (forall item, item ∈ scanType (Type_ id) s1 ->
        backend.item_Key item <> activeKey id
        /\ backend.item_Key item <> inactiveKey id).
Proof.
  intros Hid W Hv s1. subst s1.
  rewrite (Deactivate_present id s v Hid Hv). cbn [snd]. split.
  - unfold GetCertAuthority, backend.Get, backend.lookup_item. rewrite Hid. cbn.
    rewrite lookup_insert_ne by apply inactive_active_ne.
    rewrite lookup_delete_eq. cbn. eauto.
  - intros item Hin. unfold scanType in Hin. fold (typeStart (Type_ id)) in Hin.
    apply elem_of_GetRange in Hin as (k & w & L & R & ->). cbn [backend.item_Key backend.to_item].
    apply in_type_range in R as [d ->]. split.
    + intros E. rewrite E in L. cbn in L.
      rewrite lookup_insert_ne in L by apply inactive_active_ne.
      now rewrite lookup_delete_eq in L.
    + apply active_ne_inactive. exact W.
Qed.

End RotationComposed.

(** ** The role map of a user CA *)

Section RoleMaps.

Context `{Services}.

(** UpdateUserCARoleMap changes at most the key of the slot selected by
    [activated]; when it returns an error nothing is written. *)
Theorem role_map_update_is_confined
    (name : string) (roleMap : RoleMap) (activated : bool) (s : backend.Store) :
  let r := UpdateUserCARoleMap name roleMap activated s in
  (forall k, k <> roleMapKey name activated ->
     backend.items r.2 !! k = backend.items s !! k)
  /\ (r.1 <> None -> r.2 = s)
  /\ roleMapKey name true = activeKey (mkCertAuthID UserCA name)
  /\ roleMapKey name false = inactiveKey (mkCertAuthID UserCA name).
Proof.
  intros r. subst r. unfold UpdateUserCARoleMap.
  destruct (backend.Get s (roleMapKey name activated)) as [e|actualItem] eqn:G;
    [cbn; auto|].
  destruct (UnmarshalCertAuthority _ _) as [e|actual]; [cbn; auto|].
  destruct (MarshalCertAuthority _) as [e|newValue]; [cbn; auto|].
  unfold backend.CompareAndSwap. cbn [backend.item_Key].
  unfold backend.Get, backend.lookup_item in G.
  destruct (backend.items s !! roleMapKey name activated) as [cur|] eqn:L;
    [|discriminate].
  cbn in G. inversion G; subst actualItem. cbn [backend.item_Key backend.to_item].
  rewrite String.eqb_refl, L. cbn [negb backend.item_Value].
  rewrite String.eqb_refl. cbn. repeat split; try reflexivity.
  - intros k Hk. now rewrite lookup_insert_ne by auto.
  - intros N. now destruct N.
Qed.

(** When the selected slot holds a record that decodes, and the record with
    the new role map serializes, UpdateUserCARoleMap succeeds and the slot
    then holds those bytes with the expiry of the decoded record, at the
    next revision; when the slot is empty it returns NotFound. *)
Theorem role_map_update_rewrites_slot
    (name : string) (roleMap : RoleMap) (activated : bool) (s : backend.Store)
    (v : backend.Stored) (actual : CertAuthority) (newValue : string) :
  backend.items s !! roleMapKey name activated = Some v ->
  UnmarshalCertAuthority (backend.st_Value v) [] = inr actual ->
  MarshalCertAuthority (SetRoleMap actual roleMap) = inr newValue ->
  let r := UpdateUserCARoleMap name roleMap activated s in
  r.1 = None
  /\ backend.items r.2 !! roleMapKey name activated
     = Some (backend.mkStored newValue (Expiry actual)
               (Z.of_N (backend.clock s + 1)) (backend.clock s + 1))
  /\ forall s0, backend.items s0 !! roleMapKey name activated = None ->
       exists msg, UpdateUserCARoleMap name roleMap activated s0
                   = (Some (NotFound msg), s0).
Proof.
  intros Hv Hun Hm r. subst r. split; [|split].
  - unfold UpdateUserCARoleMap, backend.Get, backend.lookup_item. rewrite Hv.
    cbn. rewrite Hun. cbn in Hm |- *. rewrite Hm.
    unfold backend.CompareAndSwap. cbn. rewrite String.eqb_refl, Hv. cbn.
    now rewrite String.eqb_refl.
  - unfold UpdateUserCARoleMap, backend.Get, backend.lookup_item. rewrite Hv.
    cbn. rewrite Hun. cbn in Hm |- *. rewrite Hm.
    unfold backend.CompareAndSwap. cbn. rewrite String.eqb_refl, Hv. cbn.
    rewrite String.eqb_refl. cbn. apply lookup_insert_eq.
  - intros s0 L. unfold UpdateUserCARoleMap, backend.Get, backend.lookup_item.
    rewrite L. cbn. eauto.
Qed.

End RoleMaps.

(** ** Listing, in general *)

Section ListingProps.

Context `{Services}.

(** GetCertAuthorities returns one entry per scanned item, in scan order:
    the entry at an index is the decoded authority of the item at that index
    when the item deserializes and validates, and nil otherwise; over items
    that are all well-formed no entry is nil. *)
Theorem listing_entry_per_item
    (caType : CertAuthType) (load : bool) (s : backend.Store) :
  CertAuthType_Check caType = None ->
  exists cas,
    GetCertAuthorities caType load s = (inr cas, s)
    /\ length cas = length (scanType caType s)
    /\ (forall i item, scanType caType s !! i = Some item ->
          cas !! i = Some (decodeItem item load))
    /\ (Forall (fun item => is_Some (decodeItem item load)) (scanType caType s) ->
        Forall is_Some cas).
Proof.
  intros Hc. eexists. split; [apply GetCertAuthorities_decoded, Hc|].
  split; [apply length_fmap|]. split.
  - intros i item Hi. rewrite list_lookup_fmap, Hi. reflexivity.
  - intros F. apply Forall_fmap. exact F.
Qed.

(** With [loadSigningKeys] false no authority in the listing carries secret
    key material. *)
Theorem listing_without_keys_has_no_secrets
    (caType : CertAuthType) (s : backend.Store)
    (cas : list (option CertAuthority)) (ca : CertAuthority) :
  (GetCertAuthorities caType false s).1 = inr cas ->
  Some ca ∈ cas ->
  secrets ca = [].
Proof.
  unfold GetCertAuthorities.
  destruct (CertAuthType_Check caType); [discriminate|]. cbn. intros E Hin.
  inversion E; subst cas.
  pose proof (listLoop_fill false (scanType caType s) []) as F. cbn in F.
  rewrite F in Hin. apply list_elem_of_fmap in Hin as (item & Hd & _).
  unfold decodeItem in Hd.
  destruct (UnmarshalCertAuthority _ _) as [e|c]; [discriminate|].
  destruct (ValidateCertAuthority c); [discriminate|].
  inversion Hd. apply RemoveCASecrets_secrets.
Qed.

(** After DeleteAllCertAuthorities of a type, the listing of that type is
    empty. *)
Theorem delete_all_then_listing_is_empty
    (caType : CertAuthType) (load : bool) (s : backend.Store) :
  CertAuthType_Check caType = None ->
  (GetCertAuthorities caType load (DeleteAllCertAuthorities caType s).2).1 = inr [].
Proof.
  intros Hc. rewrite (GetCertAuthorities_decoded _ _ _ Hc). cbn [fst].
  assert (E : scanType caType (DeleteAllCertAuthorities caType s).2 = []).
  { apply elem_of_nil_inv. intros item Hin.
    unfold scanType in Hin. fold (typeStart caType) in Hin.
    apply elem_of_GetRange in Hin as (k & w & L & R & _).
    unfold DeleteAllCertAuthorities in L. fold (typeStart caType) in L.
    rewrite DeleteRange_lookup, R in L. discriminate. }
  now rewrite E.
Qed.

End ListingProps.

(** ** The key scheme *)

Lemma inactiveKey_inj (a b : CertAuthID) :
  backend.hasSeparator (Type_ a) = false ->
  backend.hasSeparator (Type_ b) = false ->
  inactiveKey a = inactiveKey b -> a = b.
Proof.
  intros Ha Hb E. rewrite !inactiveKey_eq in E.
  change ("/authorities/deactivated/"
            +:+ (Type_ a +:+ String backend.Separator (DomainName a))
          = "/authorities/deactivated/"
            +:+ (Type_ b +:+ String backend.Separator (DomainName b))) in E.
  rewrite !append_cons in E.
  do 25 (apply (f_equal (fun x => match x with String _ r => r | "" => "" end)) in E;
         cbv beta iota in E).
  change (Type_ a +:+ String backend.Separator (DomainName a)
          = Type_ b +:+ String backend.Separator (DomainName b)) in E.
  destruct (segment_split _ _ _ _ Ha Hb E) as [E1 E2].
  destruct a, b; cbn in *; congruence.
Qed.

(** Identities whose type names hold no separator never share a key: the
    Active keys of two of them, and the Inactive keys, are equal only when
    the identities are; and when the type is not the segment that nests the
    inactive keys, an Active key is never the Inactive key of any
    identity. *)
Theorem key_scheme_separates_identities (a b : CertAuthID) :
  backend.hasSeparator (Type_ a) = false ->
  backend.hasSeparator (Type_ b) = false ->
  (activeKey a = activeKey b -> a = b)
  /\ (inactiveKey a = inactiveKey b -> a = b)
  /\ (Type_ a <> deactivatedPrefix -> forall c, activeKey a <> inactiveKey c).
Proof.
  intros Ha Hb. split; [now apply activeKey_inj|].
  split; [now apply inactiveKey_inj|].
  intros Hd c. apply active_ne_inactive. split; assumption.
Qed.

(** ** Optimistic concurrency of updates *)

Section StaleUpdate.

Context `{Services}.

(** Two updates from the same read: when the stored revision is the one the
    authority carries, UpdateCertAuthority succeeds, and submitting the same
    object again, with the revision it was read at, fails with CompareFailed
    and changes neither the store nor the objects. *)
Theorem update_twice_from_one_read
    (l : loc) (h : heap) (s : backend.Store) (ca : CertAuthority)
    (value : string) (cur : backend.Stored) :
  h !! l = Some ca ->
  ValidateCertAuthority ca = None ->
  MarshalCertAuthority ca = inr value ->
  backend.items s !! activeKey (GetID ca) = Some cur ->
  backend.st_Revision cur = GetRevision ca ->
  (GetRevision ca <= backend.clock s)%N ->
  exists l' h' s',
    UpdateCertAuthority l h s = Some (inr l', h', s')
    /\ UpdateCertAuthority l h' s'
       = Some (inl backend.ErrIncorrectRevision, h', s').
Proof.
  intros Hl Hval Hm Hcur Hrev Hle.
  destruct (Clone_fresh h l ca Hl) as (l' & Hc & Hfresh & Hne).
  do 3 eexists. split.
  - unfold UpdateCertAuthority. rewrite Hl. cbn. rewrite Hval, Hm.
    unfold backend.ConditionalUpdate. cbn. rewrite Hcur.
    rewrite decide_True by exact Hrev. cbn. rewrite Hc. cbn.
    rewrite call_insert. cbn. rewrite call_insert. reflexivity.
  - unfold UpdateCertAuthority. unfold heap, loc in *.
    rewrite lookup_insert_ne by auto. rewrite Hl. cbn. rewrite Hval, Hm.
    unfold backend.ConditionalUpdate. cbn. rewrite lookup_insert_eq.
    rewrite decide_False; [reflexivity|]. cbn. unfold GetRevision in *. lia.
Qed.

End StaleUpdate.

(** ** Helm templates *)

Lemma isPrefix_hasByte (c : ascii) (old s : string) :
  backend.isPrefix old s = true ->
  helmcrds.hasByte c old = true -> helmcrds.hasByte c s = true.
Proof.
  revert s. induction old as [|a old IH]; intros [|x s]; cbn; try discriminate.
  intros [Hax Hp]%andb_true_iff. apply Ascii.eqb_eq in Hax. subst x.
  intros [Hc|Hc]%orb_true_iff; apply orb_true_iff; [now left|right; now apply IH].
Qed.

Lemma replaceFrom_absent (c : ascii) (old new s : string) :
  helmcrds.hasByte c old = true ->
  helmcrds.hasByte c s = false ->
  helmcrds.replaceFrom old new 0 s = s.
Proof.
  intros Hold. induction s as [|x s IH]; [reflexivity|]. intros Hs.
  cbn [helmcrds.replaceFrom].
  destruct (backend.isPrefix old (String x s)) eqn:P.
  - apply (isPrefix_hasByte c) in P; [congruence|exact Hold].
  - cbn in Hs. apply orb_false_iff in Hs as [_ Hs]. now rewrite IH.
Qed.

(** A CRD that holds no backquote needs no escaping: craftHelmCRD succeeds
    and returns the CRD, byte for byte, between the Helm prefix and
    suffix. *)
Theorem craft_embeds_plain_crd_verbatim (originalCRD : string) :
  helmcrds.hasByte "`"%char originalCRD = false ->
  helmcrds.craftHelmCRD originalCRD
  = inr (helmcrds.helmCRDPrefix +:+ originalCRD +:+ helmcrds.helmCRDSuffix).
Proof.
  intros Hb. unfold helmcrds.craftHelmCRD, helmcrds.escapeCRD, helmcrds.ReplaceAll.
  rewrite (replaceFrom_absent "`"%char "`{{" _ originalCRD eq_refl Hb).
  now rewrite (replaceFrom_absent "`"%char "}}`" _ originalCRD eq_refl Hb).
Qed.

Lemma craft_plain_witness :
  helmcrds.craftHelmCRD "kind: CustomResourceDefinition"
  = inr (helmcrds.helmCRDPrefix +:+ "kind: CustomResourceDefinition"
         +:+ helmcrds.helmCRDSuffix).
Proof. apply craft_embeds_plain_crd_verbatim. reflexivity. Defined.

(** ** Trait expressions *)

(** [choose] returns the value of the first option whose condition holds,
    and fails with BadParameter exactly when no option's condition holds. *)
Theorem choose_selects_first_true {any : Type} (options : list (expression.option_ any)) :
  (forall v, expression.choose options = inr v <->
     exists pre opt post,
       options = pre ++ opt :: post
       /\ Forall (fun o => expression.condition o = false) pre
       /\ expression.condition opt = true
       /\ expression.value opt = v)
  /\ (expression.choose options = inl (BadParameter expression.noOptionMsg) <->
      Forall (fun o => expression.condition o = false) options).
Proof.
  induction options as [|o rest [IHv IHe]].
  - split.
    + intros v. cbn. split; [discriminate|].
      intros (pre & opt & post & E & _). now destruct pre.
    + cbn. split; [constructor|reflexivity].
  - cbn [expression.choose]. destruct (expression.condition o) eqn:C.
    + split.
      * intros v. split.
        -- intros E. inversion E. exists [], o, rest. repeat split; auto.
        -- intros (pre & opt & post & E & F & Ct & Hv).
           destruct pre as [|p pre]; cbn in E; inversion E; subst.
           ++ reflexivity.
           ++ inversion F; congruence.
      * split; [discriminate|]. intros F. inversion F; congruence.
    + split.
      * intros v. rewrite IHv. split.
        -- intros (pre & opt & post & -> & F & Ct & Hv).
           exists (o :: pre), opt, post. repeat split; auto.
        -- intros (pre & opt & post & E & F & Ct & Hv).
           destruct pre as [|p pre]; cbn in E; inversion E; subst.
           ++ congruence.
           ++ inversion F; subst. exists pre, opt, post. repeat split; auto.
      * rewrite IHe. split.
        -- intros F. constructor; assumption.
        -- intros F. now inversion F.
Qed.

Section DictRoundTrip.

Context {Set_ : Type} `{expression.SetOps Set_}.

(** From a string-slice map to a Dict and back: for a set type whose items
    are the members it was built from, the result has the keys of the map,
    and under each key a slice with exactly the members of the original
    slice. *)
Theorem dict_round_trip_keeps_members (m : gmap string (list string)) (k : string) :
  (forall (l : list string) (x : string),
      x ∈ expression.items (expression.NewSet l) <-> x ∈ l) ->
  let back := expression.StringSliceMapFromDict (expression.DictFromStringSliceMap m) in
  (back !! k = None <-> m !! k = None)
  /\ (forall l, m !! k = Some l ->
        exists l', back !! k = Some l' /\ forall x, x ∈ l' <-> x ∈ l).
Proof.
  intros Hset back. subst back.
  unfold expression.StringSliceMapFromDict, expression.DictFromStringSliceMap.
  rewrite !lookup_fmap. destruct (m !! k) as [l|]; cbn.
  - split; [split; discriminate|]. intros l0 E. inversion E; subst.
    eexists. split; [reflexivity|]. apply Hset.
  - split; [tauto|]. discriminate.
Qed.

End DictRoundTrip.

Lemma dict_round_trip_witness :
  exists l',
    expression.StringSliceMapFromDict (Set_ := list string)
      (expression.DictFromStringSliceMap {[ "logins" := ["root"; "admin"; "root"] ]})
      !! "logins" = Some l'
    /\ forall x, x ∈ l' <-> x ∈ ["root"; "admin"; "root"].
Proof.
  refine (proj2 (dict_round_trip_keeps_members (Set_ := list string)
            {[ "logins" := ["root"; "admin"; "root"] ]} "logins" _) _ _).
  - intros l x. cbn. apply elem_of_remove_dups.
  - vm_compute. reflexivity.
Defined.

(** ** The further statements on the sample store *)

Lemma sample_ids_checked :
  Forall (fun id => sample.checkID id = None)
    [GetID sample.hostCA; GetID sample.userCA].
Proof. repeat constructor. Qed.

Lemma delete_clears_witness :
  (DeleteCertAuthorities [GetID sample.hostCA; GetID sample.userCA]
     sample.bootstrapped).1 = None.
Proof.
  exact (proj1 (delete_clears_both_slots (H := sample.sampleServices)
                  [GetID sample.hostCA; GetID sample.userCA]
                  sample.bootstrapped sample_ids_checked)).
Defined.

Lemma delete_rejects_witness :
  DeleteCertAuthorities
    [GetID sample.hostCA; mkCertAuthID "bogus" "example.com"; GetID sample.userCA]
    sample.bootstrapped
  = (Some (BadParameter ("authority type is not supported: " +:+ quote "bogus")),
     sample.bootstrapped).
Proof.
  apply (delete_rejects_whole_batch (H := sample.sampleServices)
           [GetID sample.hostCA] [GetID sample.userCA]
           (mkCertAuthID "bogus" "example.com")).
  - repeat constructor.
  - reflexivity.
Defined.

Lemma create_rejects_witness :
  CreateCertAuthorities
    [sample.hostCA; sample.newCA "host" "keyless" []; sample.userCA]
    backend.empty_store
  = (Some (BadParameter "certificate authority missing keys"), backend.empty_store).
Proof.
  apply (create_rejects_whole_batch (H := sample.sampleServices)
           [sample.hostCA] [sample.userCA] (sample.newCA "host" "keyless" [])).
  - constructor; [apply sample_acceptable; reflexivity|constructor].
  - reflexivity.
Defined.

Lemma create_twice_witness :
  (CreateCertAuthority sample.hostCA backend.empty_store).1 = None
  /\ CreateCertAuthority sample.hostCA
       (CreateCertAuthority sample.hostCA backend.empty_store).2
     = (Some (AlreadyExists (alreadyExistMsg ["example.com"])),
        (CreateCertAuthority sample.hostCA backend.empty_store).2).
Proof.
  apply (create_twice_already_exists (H := sample.sampleServices)
           sample.hostCA backend.empty_store).
  - apply sample_acceptable. reflexivity.
  - intros [v Hv]. vm_compute in Hv. discriminate.
Defined.

Lemma create_then_get_witness :
  (GetCertAuthority (GetID sample.hostCA) false
     (CreateCertAuthority sample.hostCA backend.empty_store).2).1
  = inr (RemoveCASecrets (SetResourceID (SetRevision sample.hostCA 1) 1)).
Proof.
  apply (create_then_get (H := sample.sampleServices) sample.hostCA
           (SetResourceID (SetRevision sample.hostCA 1) 1) false backend.empty_store).
  - apply sample_acceptable. reflexivity.
  - reflexivity.
  - intros [v Hv]. vm_compute in Hv. discriminate.
  - vm_compute. reflexivity.
  - reflexivity.
Defined.

Lemma upsert_confined_witness :
  backend.items (UpsertCertAuthority sample.hostCA backend.empty_store).2
    !! inactiveKey (GetID sample.hostCA)
  = backend.items backend.empty_store !! inactiveKey (GetID sample.hostCA).
Proof.
  apply (upsert_writes_active_key_only (H := sample.sampleServices)).
  apply inactive_active_ne.
Defined.

Lemma upsert_of_inactive_witness :
  (UpsertCertAuthority sample.hostCA
     (DeactivateCertAuthority (GetID sample.hostCA) sample.bootstrapped).2).1 = None.
Proof.
  refine (proj1 (upsert_of_inactive_fills_both_slots (H := sample.sampleServices)
            sample.hostCA "host|example.com|example.com|host-pub,host-priv|"
            (DeactivateCertAuthority (GetID sample.hostCA) sample.bootstrapped).2
            _ _ _ _)).
  - reflexivity.
  - reflexivity.
  - unfold inInactive. vm_compute. eauto.
  - intros [v Hv]. vm_compute in Hv. discriminate.
Defined.

Lemma rotation_round_trip_witness :
  (DeactivateCertAuthority (GetID sample.hostCA) sample.bootstrapped).1 = None
  /\ (ActivateCertAuthority (GetID sample.hostCA)
        (DeactivateCertAuthority (GetID sample.hostCA) sample.bootstrapped).2).1
     = None.
Proof.
  assert (L : backend.items sample.bootstrapped !! activeKey (GetID sample.hostCA)
              = Some (backend.mkStored
                        "host|example.com|example.com|host-pub,host-priv|" None 1 1))
    by (vm_compute; reflexivity).
  destruct (deactivate_then_activate_restores (H := sample.sampleServices)
              (GetID sample.hostCA) sample.bootstrapped _ eq_refl L)
    as (D & A & _).
  split; assumption.
Defined.

Lemma activate_absent_witness :
  ActivateCertAuthority (GetID sample.hostCA) sample.bootstrapped
  = (Some (Errorf (notInactiveMsg (GetID sample.hostCA))), sample.bootstrapped).
Proof.
  apply (activate_absent_reports_not_inactive (H := sample.sampleServices)).
  - reflexivity.
  - vm_compute. reflexivity.
Defined.

Lemma deactivated_hidden_witness :
  exists msg,
    GetCertAuthority (GetID sample.hostCA) true
      (DeactivateCertAuthority (GetID sample.hostCA) sample.bootstrapped).2
    = (inl (NotFound msg),
       (DeactivateCertAuthority (GetID sample.hostCA) sample.bootstrapped).2).
Proof.
  assert (L : backend.items sample.bootstrapped !! activeKey (GetID sample.hostCA)
              = Some (backend.mkStored
                        "host|example.com|example.com|host-pub,host-priv|" None 1 1))
    by (vm_compute; reflexivity).
  refine (proj1 (deactivated_is_hidden_from_reads (H := sample.sampleServices)
            (GetID sample.hostCA) true sample.bootstrapped _ eq_refl _ L)).
  split; [reflexivity|discriminate].
Defined.

Lemma role_map_update_witness :
  (UpdateUserCARoleMap "example.com" [("remote-admin", ["access"])] true
     sample.bootstrapped).1 = None.
Proof.
  refine (proj1 (role_map_update_rewrites_slot (H := sample.sampleServices)
            "example.com" [("remote-admin", ["access"])] true sample.bootstrapped
            (backend.mkStored "user|example.com|example.com|user-pub,user-priv|"
               None 1 1)
            sample.userCA "user|example.com|example.com|user-pub,user-priv|"
            _ _ _)); vm_compute; reflexivity.
Defined.

Lemma listing_entry_witness :
  exists cas,
    GetCertAuthorities "host" true sample.corrupted = (inr cas, sample.corrupted)
    /\ length cas = length (scanType "host" sample.corrupted).
Proof.
  destruct (listing_entry_per_item (H := sample.sampleServices)
              "host" true sample.corrupted eq_refl) as (cas & E & Hlen & _).
  exists cas. split; assumption.
Defined.

Lemma listing_no_secrets_witness :
  secrets (RemoveCASecrets (SetResourceID (SetRevision sample.dbCA 1) 1)) = [].
Proof.
  apply (listing_without_keys_has_no_secrets (H := sample.sampleServices)
           "db" sample.bootstrapped
           [Some (RemoveCASecrets (SetResourceID (SetRevision sample.dbCA 1) 1))]).
  - vm_compute. reflexivity.
  - apply list_elem_of_here.
Defined.

Lemma delete_all_listing_witness :
  (GetCertAuthorities "db" true
     (DeleteAllCertAuthorities "db" sample.bootstrapped).2).1 = inr [].
Proof.
  apply (delete_all_then_listing_is_empty (H := sample.sampleServices)).
  reflexivity.
Defined.

Lemma key_scheme_witness :
  activeKey (GetID sample.dbCA) <> inactiveKey (GetID sample.dbClientCA).
Proof.
  refine (proj2 (proj2 (key_scheme_separates_identities (GetID sample.dbCA)
                  (GetID sample.dbClientCA) eq_refl eq_refl)) _
            (GetID sample.dbClientCA)).
  discriminate.
Defined.

Lemma update_twice_witness :
  exists l' h' s',
    UpdateCertAuthority 1%positive {[ 1%positive := SetRevision sample.hostCA 1 ]}
      sample.bootstrapped = Some (inr l', h', s')
    /\ UpdateCertAuthority 1%positive h' s'
       = Some (inl backend.ErrIncorrectRevision, h', s').
Proof.
  assert (L : ({[ 1%positive := SetRevision sample.hostCA 1 ]} : heap) !! 1%positive
              = Some (SetRevision sample.hostCA 1)) by (vm_compute; reflexivity).
  assert (V : sample.validate (SetRevision sample.hostCA 1) = None)
    by (vm_compute; reflexivity).
  assert (C : backend.items sample.bootstrapped
                !! activeKey (GetID (SetRevision sample.hostCA 1))
              = Some (backend.mkStored
                        "host|example.com|example.com|host-pub,host-priv|" None 1 1))
    by (vm_compute; reflexivity).
  apply (update_twice_from_one_read (H := sample.sampleServices) 1%positive
           {[ 1%positive := SetRevision sample.hostCA 1 ]} sample.bootstrapped
           (SetRevision sample.hostCA 1)
           "host|example.com|example.com|host-pub,host-priv|" _ L V eq_refl C eq_refl).
  vm_compute. discriminate.
Defined.
